(** * Representative-frame thumbnailer (video.c): model and properties

    A shallow embedding of [video.c]: the histogram builder and the
    representative-frame selector ([select_best_frame], [compute_error]),
    the RGBA converter ([encode_frame]) and the sampling pipeline
    ([extract_video_image]).

    Conventions of the model.
    - C [int] values are [Z]; an operation whose C behaviour is undefined
      (reading outside an array, dereferencing a null pointer, overflowing
      a signed counter) yields [None].
    - C [double] values are IEEE 754 binary64 numbers, as the Standard
      Library specifies them ([SpecFloat], precision 53, exponent bound
      1024): every operation rounds its exact result to the nearest
      number, ties to even, and is rounded on its own.
    - libavformat, libavcodec and libswscale are outside the program: what
      they answer is an input of the model ([packet_io], [libenv]). *)

From Stdlib Require Import ZArith QArith Lia List.
From Stdlib Require Strings.Byte.
From Stdlib Require Floats.SpecFloat.
From stdpp Require Import base option list.

#[local] Open Scope Z_scope.

(** ** Constants *)

Definition HIST_SIZE : Z := 3 * 256.
Definition MAX_FRAMES : Z := 100.
Definition INT_MAX : Z := 2147483647.
Definition INT_MIN : Z := -2147483648.

(** errno values and libavutil's error codes (Linux). *)
Definition ENOMEM : Z := 12.
Definition EAGAIN : Z := 11.
Definition EINVAL : Z := 22.
Definition AVERROR (e : Z) : Z := - e.
(** [FFERRTAG('E','O','F',' ')] negated. *)
Definition AVERROR_EOF : Z := - (69 + 79 * 2 ^ 8 + 70 * 2 ^ 16 + 32 * 2 ^ 24).

(** ** Data *)

(** The fields of libavutil's [AVFrame] that the program reads. [data] is
    [None] when the C expression [f->data] is null and [Some p] otherwise,
    [p] being the bytes reachable from [f->data[0]] (no byte at all for a
    null plane); [linesize] is [f->linesize[0]]. In libavutil [data] is an
    array inside the frame, so that [f->data] is not null for any frame
    the library hands out. *)
Record AVFrame : Type := {
  width : Z;
  height : Z;
  data : option (list Byte.byte);
  linesize : Z
}.

(** [struct Buffer] (declared in video.h), as [encode_frame] fills it.
    [buf_data] is the length of the block [malloc] returned, [None] for a
    null pointer. *)
Record Buffer : Type := {
  buf_data : option Z;
  buf_size : Z;
  buf_width : Z;
  buf_height : Z
}.

(** ** Arrays and loops *)

Definition load {A} (a : list A) (i : Z) : option A :=
  if 0 <=? i then a !! Z.to_nat i else None.

Definition store {A} (a : list A) (i : Z) (v : A) : option (list A) :=
  if (0 <=? i) && (i <? Z.of_nat (length a))
  then Some (<[Z.to_nat i := v]> a) else None.

(** [for (i = lo; i < hi; i++) body], the body neither changing [i] nor
    leaving the loop. *)
Fixpoint for_loop {St} (n : nat) (i : Z) (body : Z → St → option St) (s : St)
  : option St :=
  match n with
  | O => Some s
  | S n' => s' ← body i s; for_loop n' (i + 1) body s'
  end.

Definition for_range {St} (lo hi : Z) (body : Z → St → option St) (s : St)
  : option St :=
  for_loop (Z.to_nat (hi - lo)) lo body s.

(** A null pointer test. *)
Definition is_null {A} (p : option A) : bool :=
  match p with None => true | Some _ => false end.

Definition byte_val (b : Byte.byte) : Z := Z.of_N (Byte.to_N b).

Definition sumZ (l : list Z) : Z := foldr Z.add 0 l.

(** ** The type double *)

Definition double : Type := SpecFloat.spec_float.

(** The constant [0] and the conversion of an [int]. *)
Definition double_zero : double := SpecFloat.S754_zero false.

Definition double_of_int (x : Z) : double :=
  SpecFloat.binary_normalize 53 1024 x 0 false.

Definition double_add : double → double → double := SpecFloat.SFadd 53 1024.
Definition double_sub : double → double → double := SpecFloat.SFsub 53 1024.
Definition double_mul : double → double → double := SpecFloat.SFmul 53 1024.
Definition double_div : double → double → double := SpecFloat.SFdiv 53 1024.

(** The comparison [x < y]: false when either side is not a number. *)
Definition double_lt : double → double → bool := SpecFloat.SFltb.

(** ** Histogram builder (select_best_frame, first loop) *)

(** The value of an [int] expression: none when it overflows. *)
Definition int_val (x : Z) : option Z :=
  if (INT_MIN <=? x) && (x <=? INT_MAX) then Some x else None.

(** [h[b]++] on an [int] counter. *)
Definition incr (h : list Z) (b : Z) : option (list Z) :=
  c ← load h b;
  if c <? INT_MAX then store h b (c + 1) else None.

(** The loop over [k]: one increment per channel of pixel [i] of the row
    that starts at offset [p] of the plane. *)
Definition count_pixel (plane : list Byte.byte) (p i : Z) (h : list Z)
  : option (list Z) :=
  for_range 0 3 (λ k h,
    o ← int_val (i * 3 + k);
    v ← load plane (p + o);
    incr h (k * 256 + byte_val v)) h.

Definition count_row (plane : list Byte.byte) (p w : Z) (h : list Z)
  : option (list Z) :=
  for_range 0 w (λ i h, count_pixel plane p i h) h.

(** The loop over [j]; the state is the row pointer [p] and the
    histogram; [p += f->linesize[0]] ends every row. *)
Definition count_frame (f : AVFrame) (plane : list Byte.byte) (h : list Z)
  : option (list Z) :=
  snd <$> for_range 0 (height f) (λ j (s : Z * list Z),
    h' ← count_row plane s.1 (width f) s.2;
    Some (s.1 + linesize f, h')) (0, h).

Definition zero_hists : list (list Z) :=
  replicate (Z.to_nat MAX_FRAMES) (replicate (Z.to_nat HIST_SIZE) 0).

(** The loop over [frame_i], [n] iterations left. It yields the value of
    [frame_i] after the loop and the histograms. *)
Fixpoint hist_frames (n : nat) (frame_i : Z) (frames : list (option AVFrame))
  (hists : list (list Z)) : option (Z * list (list Z)) :=
  match n with
  | O => Some (frame_i, hists)
  | S n' =>
    f ← load frames frame_i;
    match f with
    | None => Some (frame_i - 1, hists)
    | Some f =>
      match data f with
      | None => Some (frame_i - 1, hists)
      | Some plane =>
        row ← load hists frame_i;
        row' ← count_frame f plane row;
        hists' ← store hists frame_i row';
        hist_frames n' (frame_i + 1) frames hists'
      end
    end
  end.

(** ** Representative frame selector *)

Definition compute_error (hist : list Z) (median : list double)
  : option double :=
  for_range 0 HIST_SIZE (λ i sum_sq_err,
    m ← load median i;
    h ← load hist i;
    let err := double_sub m (double_of_int h) in
    Some (double_add sum_sq_err (double_mul err err))) double_zero.

(** The averaging loops, lines 61 to 68. *)
Definition average_hists (hists : list (list Z)) (frame_i : Z)
  : option (list double) :=
  for_range 0 (frame_i + 1) (λ j average,
    average ← for_range 0 (frame_i + 1) (λ i average,
      row ← load hists i;
      c ← load row j;
      store average j (double_of_int c)) average;
    a ← load average j;
    store average j (double_div a (double_of_int (frame_i + 1))))
  (replicate (Z.to_nat HIST_SIZE) double_zero).

(** The selection loop, lines 70 to 80, [n] iterations left. *)
Fixpoint find_best_loop (n : nat) (i : Z) (hists : list (list Z))
  (average : list double) (best_i : Z) (min_sq_err : double) : option Z :=
  match n with
  | O => Some best_i
  | S n' =>
    row ← load hists i;
    sq_err ← compute_error row average;
    if (i =? 0) || double_lt sq_err min_sq_err
    then find_best_loop n' (i + 1) hists average i sq_err
    else find_best_loop n' (i + 1) hists average best_i min_sq_err
  end.

Definition find_best (hists : list (list Z)) (average : list double)
  (frame_i : Z) : option Z :=
  find_best_loop (Z.to_nat (frame_i + 1)) 0 hists average 0
    (double_of_int (-1)).

Definition select_best_frame (frames : list (option AVFrame)) : option Z :=
  r ← hist_frames (Z.to_nat MAX_FRAMES) 0 frames zero_hists;
  let frame_i := r.1 in
  let hists := r.2 in
  if frame_i =? -1 then Some (-1)
  else
    average ← average_hists hists frame_i;
    find_best hists average frame_i.

(** ** Pixel format converter *)

(** What libswscale and the allocator answer during one call of
    [encode_frame]: whether [sws_getContext] returns a context for a
    picture of the given width and height, whether [malloc] returns a
    block, and the value [sws_scale] returns. *)
Record libenv : Type := {
  sws_getContext : Z → Z → bool;
  malloc_ok : bool;
  sws_scale_ret : Z
}.

(** The destination arguments [encode_frame] hands to [sws_scale]. *)
Record scale_call : Type := {
  dst_data : option Z;
  dst_linesize : Z
}.

(** Conversions to [unsigned long] / [size_t] (64 bits) and to [int]. *)
Definition to_ulong (x : Z) : Z := x mod 2 ^ 64.
Definition to_int (x : Z) : Z := (x + 2 ^ 31) mod 2 ^ 32 - 2 ^ 31.

(** libavutil's size check of a picture whose rows take [4 * w] bytes. *)
Definition av_image_check_size (w h : Z) : bool :=
  (0 <? w) && (0 <? h) && ((4 * w + 1024) * (h + 128) <? INT_MAX).

(** [av_image_get_buffer_size(AV_PIX_FMT_RGBA, w, h, 1)]: one plane of
    [h] rows of [4 * w] bytes, or an error code for an invalid size. *)
Definition av_image_get_buffer_size (w h : Z) : Z :=
  if av_image_check_size w h then 4 * w * h else AVERROR EINVAL.

Definition malloc (env : libenv) (n : Z) : option Z :=
  if malloc_ok env then Some n else None.

(** The result is the returned code, the buffer descriptor and, when
    [sws_scale] was called, its destination arguments. *)
Definition encode_frame (env : libenv) (img : Buffer) (frame : AVFrame)
  : Z * Buffer * option scale_call :=
  if negb (sws_getContext env (width frame) (height frame))
  then (AVERROR ENOMEM, img, None)
  else
    let w := to_ulong (width frame) in
    let h := to_ulong (height frame) in
    let size := to_ulong (av_image_get_buffer_size (width frame) (height frame)) in
    let d := malloc env size in
    let img' := {| buf_data := d; buf_size := size;
                   buf_width := w; buf_height := h |} in
    (0, img', Some {| dst_data := d; dst_linesize := to_int (to_ulong (4 * w)) |}).

(** ** Frame sampler and pipeline (extract_video_image) *)

(** The answers of the demuxer and the decoder during one turn of the
    [while (1)] loop: the code [av_read_frame] returns and the stream of
    the packet, the code [avcodec_send_packet] returns, whether
    [av_frame_alloc] returns a frame, the code [avcodec_receive_frame]
    returns and the picture it delivers when that code is 0. *)
Record packet_io : Type := {
  read_err : Z;
  stream_index : Z;
  send_err : Z;
  alloc_ok : bool;
  recv_err : Z;
  recv_frame : AVFrame
}.

(** A frame as [av_frame_alloc] returns it and as [avcodec_receive_frame]
    leaves it when it delivers nothing: no picture. *)
Definition blank_frame : AVFrame :=
  {| width := 0; height := 0; data := Some []; linesize := 0 |}.

(** The locals [frame_i] and [frames] of [extract_video_image]. *)
Record sampling : Type := {
  frame_i : Z;
  frames : list (option AVFrame)
}.

Definition init_sampling : sampling :=
  {| frame_i := 0; frames := replicate (Z.to_nat MAX_FRAMES) None |}.

Inductive step_result : Type :=
  | Continue (st : sampling)
  | End (err : Z) (st : sampling).

(** One turn of the sampling loop. *)
Definition read_step (stream : Z) (io : packet_io) (st : sampling)
  : option step_result :=
  if read_err io =? 0 then
    if stream_index io =? stream then
      if send_err io <? 0 then Some (End (send_err io) st)
      else
        slot ← load (frames st) (frame_i st);
        if is_null slot && negb (alloc_ok io)
        then Some (End (AVERROR ENOMEM) st)
        else
          let f := if recv_err io =? 0 then recv_frame io else blank_frame in
          frames' ← store (frames st) (frame_i st) (Some f);
          if recv_err io =? 0 then
            let st' := {| frame_i := frame_i st + 1; frames := frames' |} in
            if frame_i st + 1 =? MAX_FRAMES then Some (End 0 st')
            else Some (Continue st')
          else
            let st' := {| frame_i := frame_i st; frames := frames' |} in
            if recv_err io =? AVERROR EAGAIN then Some (Continue st')
            else Some (End (recv_err io) st')
    else Some (Continue st)
  else if read_err io =? -1 then
    if frame_i st =? 0 then Some (End (-1) st)
    else
      slot ← load (frames st) 0;
      f ← slot;
      Some (End (if is_null (data f) then -1 else 0) st)
  else Some (End (read_err io) st).

Inductive outcome (A : Type) : Type :=
  | Done (a : A)
  | Undefined
  | Pending.
Arguments Done {A} a.
Arguments Undefined {A}.
Arguments Pending {A}.

Definition to_outcome {A} (r : option A) : outcome A :=
  match r with Some a => Done a | None => Undefined end.

(** The sampling loop from turn [n] on, given [fuel] turns; [Pending]
    when the loop is still running after them. *)
Fixpoint read_frames (fuel : nat) (stream : Z) (sess : nat → packet_io)
  (n : nat) (st : sampling) : outcome (Z * sampling) :=
  match fuel with
  | O => Pending
  | S fuel' =>
    match read_step stream (sess n) st with
    | None => Undefined
    | Some (Continue st') => read_frames fuel' stream sess (S n) st'
    | Some (End err st') => Done (err, st')
    end
  end.

(** The code after the label [end], up to the returned value. The frames
    are released afterwards, which changes no result. *)
Definition finish (env : libenv) (img : Buffer) (err : Z) (st : sampling)
  : option (Z * Buffer * option scale_call) :=
  let err := if err =? AVERROR_EOF then 0 else err in
  if err =? 0 then
    if frame_i st <? 1 then Some (-1, img, None)
    else
      best ← select_best_frame (frames st);
      if best =? -1 then Some (-1, img, None)
      else
        slot ← load (frames st) best;
        f ← slot;
        Some (encode_frame env img f)
  else Some (err, img, None).

Definition extract_video_image (fuel : nat) (env : libenv) (img : Buffer)
  (sess : nat → packet_io) (stream : Z)
  : outcome (Z * Buffer * option scale_call) :=
  match read_frames fuel stream sess 0 init_sampling with
  | Done (err, st) => to_outcome (finish env img err st)
  | Undefined => Undefined
  | Pending => Pending
  end.

(** ** Concrete frames and sessions used as test inputs *)

(** A picture of one pixel. *)
Definition pixel_frame (r g b : Byte.byte) : AVFrame :=
  {| width := 1; height := 1; data := Some [r; g; b]; linesize := 3 |}.

Definition black : AVFrame := pixel_frame Byte.x00 Byte.x00 Byte.x00.

(** Two pixels in one row. *)
Definition pair_frame (p q : Byte.byte) : AVFrame :=
  {| width := 2; height := 1; data := Some [p; p; p; q; q; q]; linesize := 6 |}.

(** The array [frames] holding the given frames first, null after them. *)
Definition frames_of (l : list AVFrame) : list (option AVFrame) :=
  (Some <$> l) ++ replicate (Z.to_nat MAX_FRAMES - length l) None.

(** Sum of one 256-bin channel of a histogram. *)
Definition chan_sum (k : Z) (h : list Z) : Z :=
  sumZ (take 256 (drop (Z.to_nat (256 * k)) h)).

(** Every byte the histogram loops read from the primary plane exists. *)
Definition plane_covers (f : AVFrame) (plane : list Byte.byte) : Prop :=
  ∀ j i k, 0 ≤ j < height f → 0 ≤ i < width f → 0 ≤ k < 3 →
    0 ≤ j * linesize f + (i * 3 + k) < Z.of_nat (length plane).

(** A frame the histogram loops can process: its data pointer is set, the
    plane holds every pixel, no counter or index overflows. *)
Definition usable (f : AVFrame) : Prop :=
  ∃ plane, data f = Some plane ∧ 0 ≤ width f ∧ 0 ≤ height f ∧
    width f * height f ≤ INT_MAX ∧ 3 * width f ≤ INT_MAX ∧
    plane_covers f plane.

(** The state of a histogram while pixel number [c] is counted: the
    channels below [k] have received it, the others not yet. *)
Definition pix_inv (c k : Z) (h : list Z) : Prop :=
  length h = 768%nat ∧ Forall (Z.le 0) h ∧
  ∀ k', 0 ≤ k' < 3 → chan_sum k' h = c + (if k' <? k then 1 else 0).

(** The score of frame [i]: what the loop passes to and gets from
    [compute_error]. *)
Definition frame_error (hists : list (list Z)) (average : list double)
  (i : Z) : option double :=
  row ← load hists i; compute_error row average.

Definition is_nan (x : double) : bool :=
  match x with SpecFloat.S754_nan => true | _ => false end.

(** A number (a zero, a finite number or an infinity) of sign [s]. *)
Definition has_sign (s : bool) (x : double) : Prop :=
  match x with
  | SpecFloat.S754_zero s' | SpecFloat.S754_infinity s'
  | SpecFloat.S754_finite s' _ _ => s' = s
  | SpecFloat.S754_nan => False
  end.

(** A number that is neither negative nor "not a number": [+0], a
    positive number or [+infinity]. *)
Definition nonnegative (x : double) : Prop := has_sign false x.

(** A zero or a finite number. *)
Definition is_finite (x : double) : bool :=
  match x with
  | SpecFloat.S754_zero _ | SpecFloat.S754_finite _ _ _ => true
  | _ => false
  end.

(** The rational a double stands for, none for an infinity and for "not
    a number". *)
Definition double_val (x : double) : option Q :=
  match x with
  | SpecFloat.S754_zero _ => Some 0%Q
  | SpecFloat.S754_finite s m e =>
    Some (Qred ((if s then -1 else 1) * inject_Z (Z.pos m) * 2 ^ e)%Q)
  | _ => None
  end.

(** [best] is the first frame of lowest score among the frames below
    [n]: no frame has a score below its score, and its score is below
    the score of every frame before it (a score that is not a number
    apart, which compares with nothing). A frame after the first is the
    best only with a score that is a number. *)
Definition first_minimum (hists : list (list Z)) (average : list double)
  (n best : Z) : Prop :=
  0 ≤ best < n ∧
  ∃ e, frame_error hists average best = Some e ∧
    (0 < best → is_nan e = false) ∧
    ∀ i e', 0 ≤ i < n → frame_error hists average i = Some e' →
      double_lt e' e = false ∧
      (i < best → double_lt e e' = true ∨ is_nan e' = true).

(** The per-bin arithmetic mean the specification describes: the counts
    of bin [b] in the first [k] histograms, summed, divided by [k]. *)
Definition bin_total (hists : list (list Z)) (k : nat) (b : Z) : Z :=
  sumZ ((λ row, default 0 (load row b)) <$> take k hists).

Definition spec_average_bin (hists : list (list Z)) (k : nat) (b : Z) : Q :=
  (inject_Z (bin_total hists k b) / inject_Z (Z.of_nat k))%Q.

(** The score the specification gives frame [i] of the first [k]: the
    sum over the bins of the squared difference between the mean and the
    frame's count, in exact arithmetic. *)
Definition spec_error (hists : list (list Z)) (k : nat) (i : Z) : Q :=
  let row := default [] (load hists i) in
  foldr (λ b acc,
    let d := (spec_average_bin hists k b
              - inject_Z (default 0%Z (load row b)))%Q in
    Qred (acc + d * d)) 0%Q (seqZ 0 HIST_SIZE).

Definition Qlt_bool (x y : Q) : bool := negb (Qle_bool y x).

(** The selection the specification describes among the first [k] frames:
    the index of minimum score against the mean, a later frame taking
    the place of the current best only with a strictly smaller score. *)
Fixpoint spec_select_loop (scores : list Q) (i best : Z) (min : Q) : Z :=
  match scores with
  | [] => best
  | e :: rest =>
    if Qlt_bool e min then spec_select_loop rest (i + 1) i e
    else spec_select_loop rest (i + 1) best min
  end.

Definition spec_select (hists : list (list Z)) (k : nat) : Z :=
  match spec_error hists k <$> seqZ 0 (Z.of_nat k) with
  | [] => -1
  | e :: rest => spec_select_loop rest 1 0 e
  end.

(** A turn of the sampling loop in which the decoder delivers a frame of
    the target stream. *)
Definition yields (stream : Z) (io : packet_io) : bool :=
  (read_err io =? 0) && (stream_index io =? stream) &&
  negb (send_err io <? 0) && alloc_ok io && (recv_err io =? 0).


(** What the sampling loop keeps true of its locals while it runs. *)
Definition sampling_ok (st : sampling) : Prop :=
  0 ≤ frame_i st < MAX_FRAMES ∧
  length (frames st) = Z.to_nat MAX_FRAMES ∧
  (0 < frame_i st → ∃ f, load (frames st) 0 = Some (Some f)).

(** The locals at the start of turn [n], when the loop is still running
    then. *)
Fixpoint sampling_at (n : nat) (stream : Z) (sess : nat → packet_io)
  : option sampling :=
  match n with
  | O => Some init_sampling
  | S m =>
    st ← sampling_at m stream sess;
    match read_step stream (sess m) st with
    | Some (Continue st') => Some st'
    | _ => None
    end
  end.


(** The test [frame_i && frames[0]->data] of the read-failure case. *)
Definition tolerated (st : sampling) : bool :=
  negb (frame_i st =? 0) &&
  match load (frames st) 0 with
  | Some (Some f) => negb (is_null (data f))
  | _ => false
  end.

(** Packets of stream 0 answered by the decoder with code [err] and, when
    that is 0, picture [f]; a failed read; a packet of another stream. *)
Definition packet (err : Z) (f : AVFrame) : packet_io :=
  {| read_err := 0; stream_index := 0; send_err := 0; alloc_ok := true;
     recv_err := err; recv_frame := f |}.

Definition read_failure (code : Z) : packet_io :=
  {| read_err := code; stream_index := 0; send_err := 0; alloc_ok := true;
     recv_err := 0; recv_frame := blank_frame |}.

Definition foreign_packet : packet_io :=
  {| read_err := 0; stream_index := 1; send_err := 0; alloc_ok := true;
     recv_err := 0; recv_frame := blank_frame |}.

(** The session that answers the listed turns, then end of stream. *)
Definition script (l : list packet_io) (n : nat) : packet_io :=
  nth n l (read_failure AVERROR_EOF).

(** One frame is decoded, the next packet is answered "need more input",
    then the stream ends. *)
Definition stalled_session : nat → packet_io :=
  script [packet 0 black; packet (AVERROR EAGAIN) blank_frame].

(** libswscale as it behaves when resources allow: a context for every
    picture of positive size. *)
Definition env_ok : libenv :=
  {| sws_getContext := λ w h, (0 <? w) && (0 <? h);
     malloc_ok := true; sws_scale_ret := 1 |}.

Definition env_no_context : libenv :=
  {| sws_getContext := λ _ _, false; malloc_ok := true; sws_scale_ret := 1 |}.

Definition env_scale_fails : libenv :=
  {| sws_getContext := λ w h, (0 <? w) && (0 <? h);
     malloc_ok := true; sws_scale_ret := AVERROR EINVAL |}.

(** The same library answers with the allocator succeeding or not. *)
Definition with_malloc (b : bool) (env : libenv) : libenv :=
  {| sws_getContext := sws_getContext env; malloc_ok := b;
     sws_scale_ret := sws_scale_ret env |}.

Definition no_image : Buffer :=
  {| buf_data := None; buf_size := 0; buf_width := 0; buf_height := 0 |}.

(** ** What a histogram should count *)

(** [g 0 + ... + g (n - 1)]. *)
Fixpoint sum_below (n : nat) (g : Z → Z) : Z :=
  match n with
  | O => 0
  | S m => sum_below m g + g (Z.of_nat m)
  end.

(** 1 when channel [k] of pixel [i] of the row at offset [p] has value
    [v], 0 otherwise. *)
Definition pixel_hit (plane : list Byte.byte) (p i k v : Z) : Z :=
  match load plane (p + (i * 3 + k)) with
  | Some b => if byte_val b =? v then 1 else 0
  | None => 0
  end.

(** The number of pixels of the frame whose channel [k] has value [v]. *)
Definition bin_count (f : AVFrame) (plane : list Byte.byte) (k v : Z) : Z :=
  sum_below (Z.to_nat (height f)) (λ j,
    sum_below (Z.to_nat (width f)) (λ i,
      pixel_hit plane (j * linesize f) i k v)).

(** ** Release of the frames (extract_video_image, last loop) *)

(** The loop that ends [extract_video_image], [n] iterations left: it
    stops at the first null entry and frees, which resets the entry to
    null, every frame whose data pointer is set. *)
Fixpoint release_loop (n : nat) (i : Z) (frames : list (option AVFrame))
  : option (list (option AVFrame)) :=
  match n with
  | O => Some frames
  | S n' =>
    slot ← load frames i;
    match slot with
    | None => Some frames
    | Some f =>
      if is_null (data f) then release_loop n' (i + 1) frames
      else
        frames' ← store frames i None;
        release_loop n' (i + 1) frames'
    end
  end.

Definition release_frames (frames : list (option AVFrame))
  : option (list (option AVFrame)) :=
  release_loop (Z.to_nat MAX_FRAMES) 0 frames.

(** A turn of the sampling loop that goes on to the next turn and in
    which [avcodec_receive_frame] is called on a packet of the target
    stream and returns 0. *)
Definition delivers (stream : Z) (io : packet_io) : bool :=
  (read_err io =? 0) && (stream_index io =? stream) &&
  negb (send_err io <? 0) && (recv_err io =? 0).

(** The pictures delivered in the turns before [n], in their order. *)
Fixpoint delivered (stream : Z) (sess : nat → packet_io) (n : nat)
  : list AVFrame :=
  match n with
  | O => []
  | S m =>
    delivered stream sess m ++
    (if delivers stream (sess m) then [recv_frame (sess m)] else [])
  end.

(** The session without its turn [k]. *)
Definition drop_turn (k : nat) (sess : nat → packet_io) (n : nat)
  : packet_io :=
  if (n <? k)%nat then sess n else sess (S n).

(** * Properties *)

(** ** Arrays and loops *)

Section Arrays.
Context {A : Type}.
Implicit Types (a : list A) (i : Z) (v : A).

Lemma load_Some a i v :
  load a i = Some v ↔ 0 ≤ i ∧ a !! Z.to_nat i = Some v.
Proof.
  unfold load. destruct (Z.leb_spec 0 i); split; intros H1;
    try tauto; try discriminate. lia.
Qed.

Lemma load_in_range a i :
  0 ≤ i < Z.of_nat (length a) → ∃ v, load a i = Some v.
Proof.
  intros Hi. destruct (lookup_lt_is_Some_2 a (Z.to_nat i)) as [v Hv]; [lia|].
  exists v. apply load_Some. split; [lia | done].
Qed.

Lemma load_out_of_range a i :
  Z.of_nat (length a) ≤ i → load a i = None.
Proof.
  intros Hi. unfold load. destruct (Z.leb_spec 0 i); [|done].
  apply lookup_ge_None. lia.
Qed.

Lemma store_Some a i v a' :
  store a i v = Some a' ↔
  0 ≤ i < Z.of_nat (length a) ∧ a' = <[Z.to_nat i := v]> a.
Proof.
  unfold store.
  destruct (Z.leb_spec 0 i), (Z.ltb_spec i (Z.of_nat (length a))); simpl;
    split; intros H1; try (destruct H1; lia); try discriminate.
  - inversion H1. split; [lia | done].
  - destruct H1 as [_ ->]. done.
Qed.

Lemma store_in_range a i v :
  0 ≤ i < Z.of_nat (length a) → store a i v = Some (<[Z.to_nat i := v]> a).
Proof. intros Hi. apply store_Some. done. Qed.
End Arrays.

Section Loops.
Context {St : Type}.
Variable P : Z → St → Prop.
Variable body : Z → St → option St.

(** A loop whose body keeps an invariant runs to its end and
    establishes the invariant at the upper bound. *)
Lemma for_loop_inv (n : nat) (lo : Z) (s : St) :
  P lo s →
  (∀ i t, lo ≤ i < lo + Z.of_nat n → P i t →
     ∃ t', body i t = Some t' ∧ P (i + 1) t') →
  ∃ s', for_loop n lo body s = Some s' ∧ P (lo + Z.of_nat n) s'.
Proof.
  revert lo s. induction n as [|n IH]; intros lo s H0 Hstep.
  - exists s. simpl. rewrite Z.add_0_r. done.
  - destruct (Hstep lo s) as (t & Ht & HP); [lia | done |].
    destruct (IH (lo + 1) t) as (s' & Hs' & HP'); [done | |].
    + intros i u Hi. apply Hstep. lia.
    + exists s'. simpl. rewrite Ht. simpl. split; [done|].
      replace (lo + Z.of_nat (S n)) with (lo + 1 + Z.of_nat n) by lia. done.
Qed.

Lemma for_range_inv (hi : Z) (s : St) :
  0 ≤ hi → P 0 s →
  (∀ i t, 0 ≤ i < hi → P i t → ∃ t', body i t = Some t' ∧ P (i + 1) t') →
  ∃ s', for_range 0 hi body s = Some s' ∧ P hi s'.
Proof.
  intros Hhi H0 Hstep. unfold for_range.
  destruct (for_loop_inv (Z.to_nat (hi - 0)) 0 s) as (s' & Hs' & HP);
    [done | |].
  - intros i t Hi. apply Hstep. lia.
  - exists s'. split; [done|].
    replace (0 + Z.of_nat (Z.to_nat (hi - 0))) with hi in HP by lia. done.
Qed.
End Loops.

Lemma for_range_empty {St} (hi : Z) (body : Z → St → option St) (s : St) :
  hi ≤ 0 → for_range 0 hi body s = Some s.
Proof.
  intros Hhi. unfold for_range.
  replace (Z.to_nat (hi - 0)) with O by lia. done.
Qed.

(** ** Sums of windows of a histogram *)

Lemma sumZ_app (l1 l2 : list Z) : sumZ (l1 ++ l2) = sumZ l1 + sumZ l2.
Proof. induction l1 as [|x l1 IH]; simpl; [done|]. rewrite IH. lia. Qed.

Lemma sumZ_split (n : nat) (l : list Z) :
  sumZ l = sumZ (take n l) + sumZ (drop n l).
Proof. rewrite <- sumZ_app, take_drop. done. Qed.

Lemma sumZ_replicate_0 (n : nat) : sumZ (replicate n 0) = 0.
Proof. induction n as [|n IH]; simpl; [done|]. fold (sumZ (replicate n 0)). lia. Qed.

Lemma sumZ_insert (l : list Z) (n : nat) (x v : Z) :
  l !! n = Some x → sumZ (<[n := v]> l) = sumZ l + (v - x).
Proof.
  revert n. induction l as [|y l IH]; intros [|n] Hn; simpl in *;
    try discriminate.
  - inversion Hn. lia.
  - rewrite (IH n Hn). lia.
Qed.

Lemma sumZ_nonneg (l : list Z) : Forall (Z.le 0) l → 0 ≤ sumZ l.
Proof. induction 1; simpl; lia. Qed.

Lemma sumZ_lookup_le (l : list Z) (n : nat) (x : Z) :
  Forall (Z.le 0) l → l !! n = Some x → x ≤ sumZ l.
Proof.
  intros Hl. revert n. induction Hl as [|y l Hy Hl IH]; intros [|n] Hn;
    simpl in *; try discriminate.
  - inversion Hn. subst. pose proof (sumZ_nonneg l Hl). lia.
  - specialize (IH n Hn). lia.
Qed.

Lemma window_insert (h : list Z) (n lo len : nat) (x v : Z) :
  h !! n = Some x →
  sumZ (take len (drop lo (<[n := v]> h))) =
  sumZ (take len (drop lo h)) +
  (if bool_decide (lo ≤ n < lo + len)%nat then v - x else 0).
Proof.
  intros Hn. case_bool_decide as Hw.
  - rewrite drop_insert_ge by lia. rewrite take_insert_lt by lia.
    apply sumZ_insert. rewrite lookup_take_lt by lia.
    rewrite lookup_drop. replace (lo + (n - lo))%nat with n by lia. done.
  - destruct (decide (n < lo)%nat).
    + rewrite drop_insert_lt by lia. lia.
    + rewrite drop_insert_ge by lia. rewrite take_insert_ge by lia. lia.
Qed.

Lemma window_lookup_le (h : list Z) (n lo len : nat) (x : Z) :
  Forall (Z.le 0) h → h !! n = Some x → (lo ≤ n < lo + len)%nat →
  x ≤ sumZ (take len (drop lo h)).
Proof.
  intros Hh Hn Hw. apply (sumZ_lookup_le _ (n - lo)).
  - apply Forall_take, Forall_drop, Hh.
  - rewrite lookup_take_lt by lia. rewrite lookup_drop.
    replace (lo + (n - lo))%nat with n by lia. done.
Qed.

Lemma sumZ_channels (h : list Z) :
  length h = 768%nat → sumZ h = chan_sum 0 h + chan_sum 1 h + chan_sum 2 h.
Proof.
  intros Hlen. unfold chan_sum. simpl Z.to_nat.
  rewrite (sumZ_split 256 h), (sumZ_split 256 (drop 256 h)), drop_drop.
  change (Z.to_nat (256 * 0)) with 0%nat.
  change (Z.to_nat (256 * 1)) with 256%nat.
  change (Z.to_nat (256 * 2)) with 512%nat.
  change (256 + 256)%nat with 512%nat.
  rewrite drop_0. rewrite (take_ge (drop 512 h)); [lia|].
  rewrite length_drop. lia.
Qed.

(** ** Histogram builder *)

Lemma byte_val_range (b : Byte.byte) : 0 ≤ byte_val b < 256.
Proof.
  unfold byte_val. pose proof (Byte.to_N_bounded b) as Hb. lia.
Qed.

Lemma pix_inv_next (c : Z) (h : list Z) : pix_inv c 3 h → pix_inv (c + 1) 0 h.
Proof.
  intros (Hlen & Hpos & Hsum). repeat split; [done..|].
  intros k' Hk'. rewrite (Hsum k' Hk').
  destruct (Z.ltb_spec k' 3), (Z.ltb_spec k' 0); lia.
Qed.

Lemma pix_inv_zero : pix_inv 0 0 (replicate (Z.to_nat HIST_SIZE) 0).
Proof.
  repeat split.
  - apply Forall_replicate. lia.
  - intros k' Hk'. unfold chan_sum.
    rewrite drop_replicate, take_replicate, sumZ_replicate_0.
    destruct (Z.ltb_spec k' 0); lia.
Qed.

Lemma incr_channel (c k v : Z) (h : list Z) :
  pix_inv c k h → 0 ≤ k < 3 → 0 ≤ v < 256 → c < INT_MAX →
  ∃ h', incr h (k * 256 + v) = Some h' ∧ pix_inv c (k + 1) h'.
Proof.
  intros (Hlen & Hpos & Hsum) Hk Hv Hc.
  destruct (load_in_range h (k * 256 + v)) as [x Hx]; [lia|].
  pose proof Hx as Hx'. apply load_Some in Hx' as [_ Hn].
  assert (Hxc : x ≤ c).
  { pose proof (Hsum k Hk) as Hs. rewrite Z.ltb_irrefl in Hs.
    rewrite Z.add_0_r in Hs. rewrite <- Hs. unfold chan_sum.
    eapply window_lookup_le; [done | done | lia]. }
  unfold incr. rewrite Hx. simpl.
  destruct (Z.ltb_spec x INT_MAX); [|lia].
  rewrite store_in_range by lia.
  eexists. split; [done|]. repeat split.
  - rewrite length_insert. done.
  - apply Forall_insert; [done|].
    rewrite Forall_lookup in Hpos. specialize (Hpos _ _ Hn). lia.
  - intros k' Hk'. unfold chan_sum.
    rewrite (window_insert h _ _ _ x) by done.
    fold (chan_sum k' h). rewrite (Hsum k' Hk').
    case_bool_decide;
      destruct (Z.ltb_spec k' k), (Z.ltb_spec k' (k + 1)); lia.
Qed.

Lemma count_pixel_inv (plane : list Byte.byte) (p i c : Z) (h : list Z) :
  pix_inv c 0 h → c < INT_MAX → 0 ≤ i → i * 3 + 2 ≤ INT_MAX →
  (∀ k, 0 ≤ k < 3 → 0 ≤ p + (i * 3 + k) < Z.of_nat (length plane)) →
  ∃ h', count_pixel plane p i h = Some h' ∧ pix_inv (c + 1) 0 h'.
Proof.
  intros Hinv Hc Hi Hfit Hcov. unfold count_pixel.
  destruct (for_range_inv (pix_inv c)
    (λ k h,
       o ← int_val (i * 3 + k);
       v ← load plane (p + o);
       incr h (k * 256 + byte_val v))
    3 h) as (h' & Hh' & Hinv'); [lia | done | |].
  - intros k t Hk Ht.
    assert (Ho : int_val (i * 3 + k) = Some (i * 3 + k)).
    { unfold int_val, INT_MIN.
      destruct (Z.leb_spec (-2147483648) (i * 3 + k)); [|lia].
      destruct (Z.leb_spec (i * 3 + k) INT_MAX); [done | lia]. }
    rewrite Ho. simpl.
    destruct (load_in_range plane (p + (i * 3 + k))) as [v Hv]; [auto|].
    rewrite Hv. simpl.
    apply incr_channel; [done | done | apply byte_val_range | done].
  - exists h'. split; [done|]. apply pix_inv_next. done.
Qed.

Lemma count_row_inv (plane : list Byte.byte) (p w c : Z) (h : list Z) :
  pix_inv c 0 h → 0 ≤ w → c + w ≤ INT_MAX → 3 * w ≤ INT_MAX →
  (∀ i k, 0 ≤ i < w → 0 ≤ k < 3 →
     0 ≤ p + (i * 3 + k) < Z.of_nat (length plane)) →
  ∃ h', count_row plane p w h = Some h' ∧ pix_inv (c + w) 0 h'.
Proof.
  intros Hinv Hw Hc Hfit Hcov. unfold count_row.
  apply (for_range_inv (λ i h, pix_inv (c + i) 0 h)); [done | | ].
  - rewrite Z.add_0_r. done.
  - intros i t Hi Ht. rewrite Z.add_assoc.
    apply count_pixel_inv; [done | lia | lia | lia | auto].
Qed.

(** What the histogram loops make of one frame, started on an empty
    histogram, when the plane holds every pixel and no counter or index
    can overflow. *)
Lemma count_frame_inv (f : AVFrame) (plane : list Byte.byte) :
  0 ≤ width f → 0 ≤ height f →
  width f * height f ≤ INT_MAX → 3 * width f ≤ INT_MAX →
  plane_covers f plane →
  ∃ h, count_frame f plane (replicate (Z.to_nat HIST_SIZE) 0) = Some h ∧
       pix_inv (width f * height f) 0 h.
Proof.
  intros Hw Hh Hsz Hfit Hcov. unfold count_frame.
  destruct (for_range_inv
    (λ j (s : Z * list Z), s.1 = j * linesize f ∧ pix_inv (width f * j) 0 s.2)
    (λ j (s : Z * list Z),
       h' ← count_row plane s.1 (width f) s.2;
       Some (s.1 + linesize f, h'))
    (height f) (0, replicate (Z.to_nat HIST_SIZE) 0))
    as ([p h] & Hrun & _ & Hinv); [done | | |].
  - simpl. split; [lia|]. rewrite Z.mul_0_r. apply pix_inv_zero.
  - intros j [p h] Hj [Hp Hinv]. simpl in *. subst p.
    destruct (count_row_inv plane (j * linesize f) (width f) (width f * j) h)
      as (h' & Hh' & Hinv'); [done | done | nia | done | |].
    + intros i k Hi Hk. apply Hcov; done.
    + rewrite Hh'. simpl. eexists. split; [done|]. simpl. split; [lia|].
      replace (width f * (j + 1)) with (width f * j + width f) by lia. done.
  - exists h. rewrite Hrun. done.
Qed.

(** C3, as the claim states it, fails: the claim gives the sum of the 768
    bins as W × H, and the histogram of a frame of one pixel (W × H = 1)
    sums to 3. *)
Lemma histogram_sum_is_not_the_area :
  ¬ (∀ (f : AVFrame) (plane : list Byte.byte) (h : list Z),
       data f = Some plane → plane_covers f plane →
       count_frame f plane (replicate (Z.to_nat HIST_SIZE) 0) = Some h →
       sumZ h = width f * height f).
Proof.
  intros Hclaim.
  assert (Hrun : ∃ h, count_frame black [Byte.x00; Byte.x00; Byte.x00]
                        (replicate (Z.to_nat HIST_SIZE) 0) = Some h ∧ sumZ h = 3).
  { eexists. split; vm_compute; reflexivity. }
  destruct Hrun as (h & Hh & Hsum).
  specialize (Hclaim black _ h eq_refl).
  rewrite Hsum in Hclaim. simpl in Hclaim.
  assert (3 = 1); [|lia]. apply Hclaim; [|done].
  intros j i k. simpl. lia.
Qed.

(** C3, amended: for a frame of width W and height H in the packed
    3-bytes-per-pixel layout (the plane holds every pixel the loops read,
    W × H and 3 × W fit an [int]), the histogram builder produces a
    histogram of 768 bins whose sum is 3 × W × H: each of the three
    256-bin channels sums to W × H. *)
Theorem histogram_sum_three_areas (f : AVFrame) (plane : list Byte.byte) :
  data f = Some plane →
  0 ≤ width f → 0 ≤ height f →
  width f * height f ≤ INT_MAX → 3 * width f ≤ INT_MAX →
  plane_covers f plane →
  ∃ h, count_frame f plane (replicate (Z.to_nat HIST_SIZE) 0) = Some h ∧
       length h = Z.to_nat HIST_SIZE ∧
       sumZ h = 3 * (width f * height f) ∧
       ∀ k, 0 ≤ k < 3 → chan_sum k h = width f * height f.
Proof.
  intros _ Hw Hh Hsz Hfit Hcov.
  destruct (count_frame_inv f plane Hw Hh Hsz Hfit Hcov)
    as (h & Hrun & Hlen & _ & Hsum).
  exists h. split; [done|]. split; [done|]. split.
  - rewrite (sumZ_channels h Hlen).
    rewrite (Hsum 0), (Hsum 1), (Hsum 2) by lia. simpl. lia.
  - intros k Hk. rewrite (Hsum k Hk).
    destruct (Z.ltb_spec k 0); lia.
Qed.

Lemma histogram_sum_three_areas_witness :
  ∃ h, count_frame black [Byte.x00; Byte.x00; Byte.x00]
         (replicate (Z.to_nat HIST_SIZE) 0) = Some h ∧
       length h = Z.to_nat HIST_SIZE ∧
       sumZ h = 3 * (width black * height black) ∧
       ∀ k, 0 ≤ k < 3 → chan_sum k h = width black * height black.
Proof.
  apply (histogram_sum_three_areas black [Byte.x00; Byte.x00; Byte.x00]).
  - reflexivity.
  - simpl; lia.
  - simpl; lia.
  - vm_compute; discriminate.
  - vm_compute; discriminate.
  - intros j i k; simpl; lia.
Defined.

(** ** The type double: order and sign *)

Ltac compare_cases :=
  repeat match goal with
  | |- context [Z.compare ?a ?b] => destruct (Z.compare_spec a b)
  | |- context [Pos.compare_cont Eq ?a ?b] =>
      change (Pos.compare_cont Eq a b) with (Pos.compare a b);
      destruct (Pos.compare_spec a b)
  | H : context [Z.compare ?a ?b] |- _ => destruct (Z.compare_spec a b)
  | H : context [Pos.compare_cont Eq ?a ?b] |- _ =>
      change (Pos.compare_cont Eq a b) with (Pos.compare a b) in H;
      destruct (Pos.compare_spec a b)
  end.

Lemma double_lt_irrefl (x : double) : double_lt x x = false.
Proof.
  unfold double_lt, SpecFloat.SFltb.
  destruct x as [[]|[]| |[] m e]; simpl; try done;
    compare_cases; simpl; try done; lia.
Qed.

Lemma double_lt_trans (x y z : double) :
  double_lt x y = true → double_lt y z = true → double_lt x z = true.
Proof.
  unfold double_lt, SpecFloat.SFltb.
  destruct x as [[]|[]| |[] mx ex], y as [[]|[]| |[] my ey],
    z as [[]|[]| |[] mz ez]; simpl; try done;
    intros H1 H2; compare_cases; simpl in *; try done; try lia.
Qed.

(** Numbers are totally ordered: a number [z] lies above [x] or below
    [y] when [x < y]. *)
Lemma double_lt_total (x y z : double) :
  double_lt x y = true → is_nan z = false →
  double_lt x z = true ∨ double_lt z y = true.
Proof.
  unfold double_lt, SpecFloat.SFltb.
  destruct x as [[]|[]| |[] mx ex], y as [[]|[]| |[] my ey],
    z as [[]|[]| |[] mz ez]; simpl; try done;
    intros H1 H2; compare_cases; simpl in *; try done; try lia;
    try (by left); try (by right).
Qed.

Lemma double_lt_is_number (x y : double) :
  double_lt x y = true → is_nan x = false ∧ is_nan y = false.
Proof.
  unfold double_lt, SpecFloat.SFltb.
  destruct x as [[]|[]| |[] mx ex], y as [[]|[]| |[] my ey]; simpl; done.
Qed.

(** Rounding keeps the sign: the mantissa stays non-negative through the
    shifts and the rounding step. *)
Lemma shr_1_nonneg (mrs : SpecFloat.shr_record) :
  0 ≤ SpecFloat.shr_m mrs → 0 ≤ SpecFloat.shr_m (SpecFloat.shr_1 mrs).
Proof. destruct mrs as [[|[p|p|]|p] r s]; simpl; lia. Qed.

Lemma iter_shr_1_nonneg (p : positive) (mrs : SpecFloat.shr_record) :
  0 ≤ SpecFloat.shr_m mrs →
  0 ≤ SpecFloat.shr_m (SpecFloat.iter_pos SpecFloat.shr_1 p mrs).
Proof.
  revert mrs. induction p as [p IH|p IH|]; intros mrs H; simpl.
  - apply IH, IH, shr_1_nonneg, H.
  - apply IH, IH, H.
  - apply shr_1_nonneg, H.
Qed.

Lemma shr_fexp_nonneg (prec emax m e : Z) (l : SpecFloat.location) :
  0 ≤ m → 0 ≤ SpecFloat.shr_m (SpecFloat.shr_fexp prec emax m e l).1.
Proof.
  intros H. unfold SpecFloat.shr_fexp, SpecFloat.shr.
  assert (H0 : 0 ≤ SpecFloat.shr_m (SpecFloat.shr_record_of_loc m l)).
  { destruct l as [|[]]; simpl; done. }
  destruct (_ - e) as [|p|p]; simpl; [done | | done].
  apply iter_shr_1_nonneg, H0.
Qed.

Lemma round_nearest_even_nonneg (m : Z) (l : SpecFloat.location) :
  0 ≤ m → 0 ≤ SpecFloat.round_nearest_even m l.
Proof.
  intros H. destruct l as [|[]]; simpl; try done; [|lia].
  destruct (Z.even m); lia.
Qed.

Lemma binary_round_aux_sign (prec emax : Z) (sx : bool) (mx ex : Z)
  (lx : SpecFloat.location) :
  0 ≤ mx → has_sign sx (SpecFloat.binary_round_aux prec emax sx mx ex lx).
Proof.
  intros H. unfold SpecFloat.binary_round_aux.
  pose proof (shr_fexp_nonneg prec emax mx ex lx H) as H1.
  destruct (SpecFloat.shr_fexp prec emax mx ex lx) as [mrs' e']. simpl in H1.
  pose proof (shr_fexp_nonneg prec emax
    (SpecFloat.round_nearest_even (SpecFloat.shr_m mrs')
       (SpecFloat.loc_of_shr_record mrs')) e' SpecFloat.loc_Exact
    (round_nearest_even_nonneg _ _ H1)) as H2.
  destruct (SpecFloat.shr_fexp prec emax _ e' SpecFloat.loc_Exact)
    as [mrs'' e'']. simpl in H2.
  destruct (SpecFloat.shr_m mrs'') as [|m|m]; simpl; [done | | lia].
  destruct (e'' <=? emax - prec); done.
Qed.

Lemma binary_round_sign (prec emax : Z) (sx : bool) (mx : positive) (ex : Z) :
  has_sign sx (SpecFloat.binary_round prec emax sx mx ex).
Proof.
  unfold SpecFloat.binary_round.
  destruct (SpecFloat.shl_align mx ex _) as [mz ez].
  apply binary_round_aux_sign. lia.
Qed.

Lemma has_sign_is_number (s : bool) (x : double) :
  has_sign s x → is_nan x = false.
Proof. destruct x; done. Qed.

Lemma binary_normalize_is_number (prec emax m e : Z) (s : bool) :
  is_nan (SpecFloat.binary_normalize prec emax m e s) = false.
Proof.
  destruct m as [|p|p]; simpl; [done | |];
    eapply has_sign_is_number, binary_round_sign.
Qed.

Lemma double_of_int_is_number (x : Z) : is_nan (double_of_int x) = false.
Proof. apply binary_normalize_is_number. Qed.

Lemma double_sub_is_number (x y : double) :
  is_finite x = true → is_nan y = false → is_nan (double_sub x y) = false.
Proof.
  destruct x as [sx|sx| |sx mx ex], y as [sy|sy| |sy my ey]; try done.
  - destruct sx, sy; done.
  - intros _ _. apply binary_normalize_is_number.
Qed.

Lemma double_mul_square (x : double) :
  is_nan x = false → nonnegative (double_mul x x).
Proof.
  destruct x as [s|s| |s m e]; try done; intros _.
  - destruct s; done.
  - destruct s; done.
  - unfold nonnegative, double_mul, SpecFloat.SFmul.
    replace false with (xorb s s) at 1 by (destruct s; done).
    apply binary_round_aux_sign. lia.
Qed.

Lemma double_add_nonnegative (x y : double) :
  nonnegative x → nonnegative y → nonnegative (double_add x y).
Proof.
  destruct x as [sx|sx| |sx mx ex], y as [sy|sy| |sy my ey]; try done;
    unfold nonnegative; simpl; intros -> ->; try done.
  unfold double_add, SpecFloat.SFadd, SpecFloat.cond_Zopp.
  cbn [Z.add]. apply binary_round_sign.
Qed.

Lemma double_sub_diag (x : double) :
  is_finite x = true → double_sub x x = double_zero.
Proof.
  destruct x as [s|s| |s m e]; try done; intros _.
  - destruct s; done.
  - unfold double_sub, SpecFloat.SFsub. rewrite Z.sub_diag. done.
Qed.

(** ** Representative frame selector: the selection loop *)

Lemma compute_error_total (hist : list Z) (median : list double) :
  length hist = Z.to_nat HIST_SIZE → length median = Z.to_nat HIST_SIZE →
  ∃ e, compute_error hist median = Some e.
Proof.
  intros Hh Hm. unfold compute_error.
  destruct (for_range_inv (λ _ (_ : double), True)
    (λ i sum_sq_err,
       m ← load median i;
       h ← load hist i;
       let err := double_sub m (double_of_int h) in
       Some (double_add sum_sq_err (double_mul err err))) HIST_SIZE
    double_zero)
    as (e & He & _); [done | done | | by exists e].
  intros i t Hi _.
  destruct (load_in_range median i) as [m Hm']; [unfold HIST_SIZE in *; lia|].
  destruct (load_in_range hist i) as [x Hx']; [unfold HIST_SIZE in *; lia|].
  rewrite Hm', Hx'. cbn [mbind option_bind]. eauto.
Qed.

Lemma frame_error_total (hists : list (list Z)) (average : list double)
  (i : Z) :
  Forall (λ row, length row = Z.to_nat HIST_SIZE) hists →
  length average = Z.to_nat HIST_SIZE →
  0 ≤ i < Z.of_nat (length hists) →
  ∃ e, frame_error hists average i = Some e.
Proof.
  intros Hrows Havg Hi. unfold frame_error.
  destruct (load_in_range hists i Hi) as [row Hrow]. rewrite Hrow. simpl.
  apply compute_error_total; [|done].
  apply load_Some in Hrow as [_ Hrow].
  rewrite Forall_lookup in Hrows. eapply Hrows. done.
Qed.

Lemma find_best_loop_S (n : nat) (i : Z) (hists : list (list Z))
  (average : list double) (best_i : Z) (min_sq_err : double) :
  find_best_loop (S n) i hists average best_i min_sq_err
  = (row ← load hists i;
     sq_err ← compute_error row average;
     if (i =? 0) || double_lt sq_err min_sq_err
     then find_best_loop n (i + 1) hists average i sq_err
     else find_best_loop n (i + 1) hists average best_i min_sq_err).
Proof. reflexivity. Qed.

(** The selection loop keeps the first frame of lowest score among the
    frames it has seen. *)
Lemma find_best_loop_spec (hists : list (list Z)) (average : list double)
  (n : nat) (i best_i : Z) (min_sq_err : double) :
  0 ≤ i →
  (∀ i', i ≤ i' < i + Z.of_nat n → ∃ e, frame_error hists average i' = Some e) →
  (i = 0 ∧ n ≠ O) ∨
    (0 ≤ best_i < i ∧ frame_error hists average best_i = Some min_sq_err ∧
     (0 < best_i → is_nan min_sq_err = false) ∧
     ∀ i' e', 0 ≤ i' < i → frame_error hists average i' = Some e' →
       double_lt e' min_sq_err = false ∧
       (i' < best_i →
        double_lt min_sq_err e' = true ∨ is_nan e' = true)) →
  ∃ best, find_best_loop n i hists average best_i min_sq_err = Some best ∧
          first_minimum hists average (i + Z.of_nat n) best.
Proof.
  revert i best_i min_sq_err.
  induction n as [|n IH]; intros i best_i min_sq_err Hi Htot Hinv.
  - destruct Hinv as [[_ Hn] | (Hb & Hbe & Hnum & Hmin)]; [done|].
    exists best_i. simpl. split; [done|]. rewrite Z.add_0_r.
    split; [done|]. exists min_sq_err. done.
  - destruct (Htot i) as [e He]; [lia|].
    pose proof He as He'. unfold frame_error in He'.
    destruct (load hists i) as [row|] eqn:Hrow; [|discriminate].
    cbn [mbind option_bind] in He'.
    rewrite find_best_loop_S, Hrow. cbn [mbind option_bind].
    rewrite He'. cbn [mbind option_bind].
    replace (i + Z.of_nat (S n)) with (i + 1 + Z.of_nat n) by lia.
    destruct ((i =? 0) || double_lt e min_sq_err) eqn:Htest.
    + apply IH; [lia | intros; apply Htot; lia |]. right.
      split; [lia|]. split; [done|]. split.
      { intros Hpos. apply orb_true_iff in Htest as [Hz | Hlt]; [lia|].
        apply double_lt_is_number in Hlt. tauto. }
      intros i' e' Hi' He''.
      destruct (decide (i' = i)) as [->|Hne].
      { rewrite He in He''. inversion He''. subst e'.
        split; [apply double_lt_irrefl | lia]. }
      destruct Hinv as [[-> _] | (Hb & Hbe & Hnum & Hmin)]; [lia|].
      apply orb_true_iff in Htest as [Hz | Hlt]; [lia|].
      destruct (Hmin i' e') as [Hle _]; [lia | done |].
      split.
      * destruct (double_lt e' e) eqn:Hlt'; [|done].
        rewrite (double_lt_trans _ _ _ Hlt' Hlt) in Hle. done.
      * intros _. destruct (is_nan e') eqn:Hnan; [by right|]. left.
        destruct (double_lt_total _ _ e' Hlt Hnan) as [H1 | H1]; [done|].
        congruence.
    + apply orb_false_iff in Htest as [Hz Hnlt].
      destruct Hinv as [[-> _] | (Hb & Hbe & Hnum & Hmin)]; [done|].
      apply IH; [lia | intros; apply Htot; lia |]. right.
      split; [lia|]. split; [done|]. split; [done|].
      intros i' e' Hi' He''.
      destruct (decide (i' = i)) as [->|Hne]; [|apply Hmin; [lia | done]].
      rewrite He in He''. inversion He''. subst e'. split; [done | lia].
Qed.

(** ** Representative frame selector: counting and averaging *)

Lemma frames_of_length (l : list AVFrame) :
  (length l ≤ 100)%nat → length (frames_of l) = Z.to_nat MAX_FRAMES.
Proof.
  intros Hl. unfold frames_of.
  rewrite length_app, length_fmap, length_replicate.
  change (Z.to_nat MAX_FRAMES) with 100%nat. lia.
Qed.

Lemma frames_of_load (l : list AVFrame) (i : Z) :
  0 ≤ i < MAX_FRAMES →
  load (frames_of l) i = Some (l !! Z.to_nat i).
Proof.
  intros Hi. unfold load, frames_of, MAX_FRAMES in *.
  destruct (Z.leb_spec 0 i); [|lia].
  destruct (decide (Z.to_nat i < length l)%nat) as [Hin|Hout].
  - rewrite lookup_app_l by (rewrite length_fmap; lia).
    rewrite list_lookup_fmap.
    destruct (lookup_lt_is_Some_2 l (Z.to_nat i) Hin) as [f Hf].
    rewrite Hf. done.
  - rewrite lookup_app_r by (rewrite length_fmap; lia).
    rewrite length_fmap, (lookup_ge_None_2 l) by lia.
    rewrite lookup_replicate_2; [done|].
    change (Z.to_nat 100) with 100%nat. lia.
Qed.

(** The first loop of [select_best_frame] on an array that holds the
    frames of [l] and null pointers after them: it leaves [frame_i] at the
    index of the last frame, but at 100, not 99, when the array is full. *)
Lemma hist_frames_spec (l : list AVFrame) (n : nat) (frame_i : Z)
  (hists : list (list Z)) :
  (length l ≤ 100)%nat → Forall usable l →
  frame_i + Z.of_nat n = MAX_FRAMES →
  0 ≤ frame_i ≤ Z.of_nat (length l) →
  length hists = Z.to_nat MAX_FRAMES →
  Forall (λ row, length row = Z.to_nat HIST_SIZE) hists →
  (∀ i, frame_i ≤ i < MAX_FRAMES →
     load hists i = Some (replicate (Z.to_nat HIST_SIZE) 0)) →
  ∃ hists',
    hist_frames n frame_i (frames_of l) hists
    = Some (if decide (length l = 100%nat) then 100
            else Z.of_nat (length l) - 1, hists') ∧
    length hists' = Z.to_nat MAX_FRAMES ∧
    Forall (λ row, length row = Z.to_nat HIST_SIZE) hists'.
Proof.
  intros Hl Huse. revert frame_i hists.
  set (zrow := replicate (Z.to_nat HIST_SIZE) 0).
  induction n as [|n IH]; intros frame_i hists Hn Hfi Hlen Hrows Hzero.
  - exists hists. simpl. unfold MAX_FRAMES in Hn.
    case_decide; [|lia]. replace frame_i with 100 by lia. done.
  - simpl. rewrite frames_of_load by lia. simpl.
    destruct (l !! Z.to_nat frame_i) as [f|] eqn:Hf.
    + assert (Hin : frame_i < Z.of_nat (length l)).
      { apply lookup_lt_Some in Hf. lia. }
      rewrite Forall_lookup in Huse.
      destruct (Huse _ _ Hf) as (plane & Hd & Hw & Hh & Hsz & Hfit & Hcov).
      rewrite Hd. rewrite Hzero by lia. simpl.
      destruct (count_frame_inv f plane Hw Hh Hsz Hfit Hcov)
        as (row & Hrow & Hrlen & _).
      fold zrow in Hrow. rewrite Hrow. simpl.
      rewrite store_in_range by (unfold MAX_FRAMES in *; lia). simpl.
      apply IH; [lia | lia | by rewrite length_insert | |].
      * apply Forall_insert; done.
      * intros i Hi. specialize (Hzero i ltac:(lia)).
        apply load_Some in Hzero as [_ Hzero]. apply load_Some.
        split; [lia|]. rewrite list_lookup_insert_ne by lia. done.
    + exists hists. apply lookup_ge_None in Hf.
      unfold MAX_FRAMES in Hn.
      case_decide; [lia|]. replace frame_i with (Z.of_nat (length l)) by lia.
      done.
Qed.

(** What the averaging loops compute: in every bin whose number is at
    most [frame_i], the count of the last frame divided by the number of
    frames; zero in all other bins. *)
Lemma average_hists_spec (hists : list (list Z)) (frame_i : Z) :
  0 ≤ frame_i < Z.of_nat (length hists) → frame_i < HIST_SIZE →
  Forall (λ row, length row = Z.to_nat HIST_SIZE) hists →
  ∃ average last,
    load hists frame_i = Some last ∧
    average_hists hists frame_i = Some average ∧
    length average = Z.to_nat HIST_SIZE ∧
    ∀ j x, 0 ≤ j < HIST_SIZE → load last j = Some x →
      load average j
      = Some (if j <=? frame_i
              then double_div (double_of_int x) (double_of_int (frame_i + 1))
              else double_zero).
Proof.
  intros Hfi Hbins Hrows.
  destruct (load_in_range hists frame_i Hfi) as [last Hlast].
  assert (Hlastlen : length last = Z.to_nat HIST_SIZE).
  { apply load_Some in Hlast as [_ Hlast].
    rewrite Forall_lookup in Hrows. eapply Hrows. done. }
  unfold average_hists.
  destruct (for_range_inv
    (λ j (avg : list double), length avg = Z.to_nat HIST_SIZE ∧
       ∀ j' x, 0 ≤ j' < HIST_SIZE → load last j' = Some x →
         load avg j'
         = Some (if j' <? j
                 then double_div (double_of_int x)
                        (double_of_int (frame_i + 1))
                 else double_zero))
    (λ j average,
       average ← for_range 0 (frame_i + 1) (λ i average,
         row ← load hists i;
         c ← load row j;
         store average j (double_of_int c)) average;
       a ← load average j;
       store average j (double_div a (double_of_int (frame_i + 1))))
    (frame_i + 1) (replicate (Z.to_nat HIST_SIZE) double_zero))
    as (average & Hrun & Halen & Hval); [lia | | |].
  - split; [apply length_replicate|]. intros j' x Hj' _.
    destruct (Z.ltb_spec j' 0); [lia|]. apply load_Some. split; [lia|].
    apply lookup_replicate_2. unfold HIST_SIZE in *. lia.
  - intros j avg Hj [Havglen Havg].
    destruct (for_range_inv
      (λ i (a : list double), length a = Z.to_nat HIST_SIZE ∧
         (∀ j', j' ≠ j → load a j' = load avg j') ∧
         (0 < i → ∃ row x, load hists (i - 1) = Some row ∧
                           load row j = Some x ∧
                           load a j = Some (double_of_int x)))
      (λ i average,
         row ← load hists i;
         c ← load row j;
         store average j (double_of_int c))
      (frame_i + 1) avg) as (a & Ha & Halen' & Hother & Hat).
    + lia.
    + split; [done|]. split; [done | lia].
    + intros i t Hi (Htlen & Htother & _).
      destruct (load_in_range hists i) as [row Hrow]; [lia|].
      assert (Hrowlen : length row = Z.to_nat HIST_SIZE).
      { pose proof Hrow as Hrow'. apply load_Some in Hrow' as [_ Hrow'].
        rewrite Forall_lookup in Hrows. eapply Hrows. done. }
      destruct (load_in_range row j) as [c Hc]; [lia|].
      rewrite Hrow. simpl. rewrite Hc. simpl.
      rewrite store_in_range by lia.
      eexists. split; [done|]. split; [by rewrite length_insert|]. split.
      * intros j' Hne. rewrite <- (Htother j' Hne). unfold load.
        destruct (Z.leb_spec 0 j'); [|done].
        rewrite list_lookup_insert_ne by lia. done.
      * intros _. exists row, c. replace (i + 1 - 1) with i by lia.
        split; [done|]. split; [done|]. apply load_Some. split; [lia|].
        apply list_lookup_insert_eq. lia.
    + destruct Hat as (row & x & Hrow & Hx & Hax); [lia|].
      replace (frame_i + 1 - 1) with frame_i in Hrow by lia.
      rewrite Hlast in Hrow. inversion Hrow. subst row.
      rewrite Ha. simpl. rewrite Hax. simpl.
      rewrite store_in_range by lia.
      eexists. split; [done|]. split; [by rewrite length_insert|].
      intros j' x' Hj' Hx'.
      destruct (decide (j' = j)) as [->|Hne].
      * rewrite Hx in Hx'. inversion Hx'. subst x'.
        destruct (Z.ltb_spec j (j + 1)); [|lia].
        apply load_Some. split; [lia|]. apply list_lookup_insert_eq. lia.
      * assert (Hkeep : load (<[Z.to_nat j := double_div (double_of_int x)
                                                (double_of_int (frame_i + 1))]> a) j'
                        = load a j').
        { unfold load. destruct (Z.leb_spec 0 j'); [|done].
          rewrite list_lookup_insert_ne by lia. done. }
        rewrite Hkeep, (Hother j' Hne), (Havg j' x' Hj' Hx').
        destruct (Z.ltb_spec j' j), (Z.ltb_spec j' (j + 1)); try lia; done.
  - exists average, last. split; [done|]. split; [done|]. split; [done|].
    intros j x Hj Hx. rewrite (Hval j x Hj Hx).
    destruct (Z.ltb_spec j (frame_i + 1)), (Z.leb_spec j frame_i);
      try lia; done.
Qed.

(** The selector as a whole on an array that holds fewer than 100 frames,
    all usable, and null pointers after them: it returns the first frame
    of lowest score against the array [average] it computed. *)
Lemma select_best_frame_first_minimum (l : list AVFrame) :
  l ≠ [] → (length l < 100)%nat → Forall usable l →
  ∃ hists average best,
    hist_frames (Z.to_nat MAX_FRAMES) 0 (frames_of l) zero_hists
      = Some (Z.of_nat (length l) - 1, hists) ∧
    average_hists hists (Z.of_nat (length l) - 1) = Some average ∧
    select_best_frame (frames_of l) = Some best ∧
    first_minimum hists average (Z.of_nat (length l)) best.
Proof.
  intros Hne Hlen Huse.
  assert (Hpos : (0 < length l)%nat) by (destruct l; [done | simpl; lia]).
  destruct (hist_frames_spec l (Z.to_nat MAX_FRAMES) 0 zero_hists)
    as (hists & Hh & Hhlen & Hrows); [lia | done | done | lia | done | | |].
  { apply Forall_replicate. done. }
  { intros i Hi. apply load_Some. split; [lia|].
    apply lookup_replicate_2. unfold MAX_FRAMES in *. lia. }
  case_decide; [lia|].
  change (Z.to_nat MAX_FRAMES) with 100%nat in Hhlen.
  destruct (average_hists_spec hists (Z.of_nat (length l) - 1))
    as (average & last & _ & Ha & Halen & _);
    [lia | unfold HIST_SIZE; lia | done |].
  destruct (find_best_loop_spec hists average
              (Z.to_nat (Z.of_nat (length l) - 1 + 1)) 0 0
              (double_of_int (-1)))
    as (best & Hbest & Hmin); [done | | left; lia |].
  { intros i' Hi'. apply frame_error_total; [done | done | lia]. }
  replace (0 + Z.of_nat (Z.to_nat (Z.of_nat (length l) - 1 + 1)))
    with (Z.of_nat (length l)) in Hmin by lia.
  exists hists, average, best. split; [done|]. split; [done|].
  split; [|done].
  unfold select_best_frame. rewrite Hh. simpl.
  destruct (Z.eqb_spec (Z.of_nat (length l) - 1) (-1)); [lia|].
  rewrite Ha. done.
Qed.

(** ** Frame sampler *)

Lemma sampling_ok_init : sampling_ok init_sampling.
Proof. repeat split; simpl; unfold MAX_FRAMES; lia. Qed.

(** One turn of the loop, from locals that satisfy the invariant: no
    undefined behaviour, the invariant again when the loop goes on, and a
    frame count that moves only when a frame is delivered. *)
Lemma read_step_ok (stream : Z) (io : packet_io) (st : sampling) :
  sampling_ok st →
  ∃ r, read_step stream io st = Some r ∧
    match r with
    | Continue st' =>
      sampling_ok st' ∧ read_err io = 0 ∧
      frame_i st ≤ frame_i st' ∧
      (yields stream io = true → frame_i st' = frame_i st + 1)
    | End err st' =>
      0 ≤ frame_i st' ≤ MAX_FRAMES ∧
      (yields stream io = true → err = 0 ∧ frame_i st' = MAX_FRAMES)
    end.
Proof.
  intros (Hfi & Hlen & H0). unfold read_step, yields, sampling_ok.
  destruct (Z.eqb_spec (read_err io) 0) as [Hr|Hr]; simpl.
  - destruct (Z.eqb_spec (stream_index io) stream) as [Hs|Hs]; simpl.
    + destruct (Z.ltb_spec (send_err io) 0) as [Hsend|Hsend]; simpl.
      { eexists. split; [done|]. simpl. split; [lia | done]. }
      destruct (load_in_range (frames st) (frame_i st)) as [slot Hslot];
        [lia|].
      rewrite Hslot. simpl.
      destruct (is_null slot && negb (alloc_ok io)) eqn:Halloc.
      { eexists. split; [done|]. simpl. split; [lia|].
        apply andb_true_iff in Halloc as [_ Ha].
        destruct (alloc_ok io); [discriminate | done]. }
      rewrite store_in_range by lia. simpl.
      assert (Hfirst : ∀ f, ∃ f',
        load (<[Z.to_nat (frame_i st) := Some f]> (frames st)) 0
        = Some (Some f')).
      { intros f. destruct (decide (frame_i st = 0)) as [E|E].
        - exists f. rewrite E. apply load_Some. split; [lia|].
          apply list_lookup_insert_eq. lia.
        - destruct H0 as [f' Hf']; [lia|]. exists f'.
          apply load_Some in Hf' as [_ Hf']. apply load_Some.
          split; [lia|]. rewrite list_lookup_insert_ne by lia. done. }
      destruct (Z.eqb_spec (recv_err io) 0) as [Hrecv|Hrecv].
      * destruct (Z.eqb_spec (frame_i st + 1) MAX_FRAMES) as [Hfull|Hfull].
        -- eexists. split; [done|]. simpl. split; [lia|]. intros _. lia.
        -- eexists. split; [done|]. simpl.
           split; [|split; [done|split; [lia | done]]].
           split; [lia|]. split; [by rewrite length_insert|]. intros _.
           apply Hfirst.
      * rewrite andb_false_r.
        destruct (Z.eqb_spec (recv_err io) (AVERROR EAGAIN)).
        -- eexists. split; [done|]. simpl.
           split; [|split; [done|split; [lia | done]]].
           split; [lia|]. split; [by rewrite length_insert|]. intros _.
           apply Hfirst.
        -- eexists. split; [done|]. simpl. split; [lia | done].
    + eexists. split; [done|]. simpl.
      split; [done|]. split; [done|]. split; [lia | done].
  - destruct (Z.eqb_spec (read_err io) (-1)).
    + destruct (Z.eqb_spec (frame_i st) 0).
      * eexists. split; [done|]. simpl. split; [lia | done].
      * destruct H0 as [f Hf]; [lia|]. rewrite Hf. simpl.
        eexists. split; [done|]. simpl. split; [lia | done].
    + eexists. split; [done|]. simpl. split; [lia | done].
Qed.




Lemma sampling_at_ok (stream : Z) (sess : nat → packet_io) (n : nat)
  (st : sampling) :
  sampling_at n stream sess = Some st → sampling_ok st.
Proof.
  revert st. induction n as [|n IH]; intros st Hat; simpl in Hat.
  - inversion Hat. apply sampling_ok_init.
  - destruct (sampling_at n stream sess) as [st0|]; [|discriminate].
    simpl in Hat.
    destruct (read_step_ok stream (sess n) st0 (IH st0 eq_refl))
      as (r & Hr & Hspec).
    rewrite Hr in Hat. destruct r; [|discriminate].
    inversion Hat. subst. tauto.
Qed.

Lemma read_frames_from (stream : Z) (sess : nat → packet_io) (n fuel : nat)
  (st : sampling) :
  sampling_at n stream sess = Some st →
  read_frames (n + fuel) stream sess 0 init_sampling
  = read_frames fuel stream sess n st.
Proof.
  revert fuel st. induction n as [|n IH]; intros fuel st Hat; simpl in Hat.
  - inversion Hat. done.
  - destruct (sampling_at n stream sess) as [st0|]; [|discriminate].
    simpl in Hat.
    replace (S n + fuel)%nat with (n + S fuel)%nat by lia.
    rewrite (IH (S fuel) st0 eq_refl). simpl.
    destruct (read_step stream (sess n) st0) as [[st1|]|]; try discriminate.
    inversion Hat. done.
Qed.

Lemma extract_video_image_done (fuel : nat) (env : libenv) (img : Buffer)
  (sess : nat → packet_io) (stream err : Z) (st : sampling) :
  read_frames fuel stream sess 0 init_sampling = Done (err, st) →
  extract_video_image fuel env img sess stream
  = to_outcome (finish env img err st).
Proof. intros Hrun. unfold extract_video_image. rewrite Hrun. done. Qed.




(** C5: whenever sampling completes, normally or by end of stream, with
    no frame collected, [extract_video_image] returns the no-frames error
    (-1) and leaves the caller's image untouched: [encode_frame] is not
    called. *)
Theorem no_frames_decoded (fuel : nat) (env : libenv) (img : Buffer)
  (sess : nat → packet_io) (stream err : Z) (st : sampling) :
  read_frames fuel stream sess 0 init_sampling = Done (err, st) →
  err = 0 ∨ err = AVERROR_EOF →
  frame_i st = 0 →
  extract_video_image fuel env img sess stream = Done (-1, img, None).
Proof.
  intros Hrun Herr Hnone.
  rewrite (extract_video_image_done _ _ _ _ _ _ _ Hrun).
  unfold finish. rewrite Hnone.
  destruct Herr as [-> | ->]; done.
Qed.

Lemma no_frames_decoded_witness :
  extract_video_image 3 env_ok no_image
    (script [foreign_packet; packet (AVERROR EAGAIN) blank_frame]) 0
  = Done (-1, no_image, None).
Proof.
  apply (no_frames_decoded 3 env_ok no_image
           (script [foreign_packet; packet (AVERROR EAGAIN) blank_frame]) 0
           AVERROR_EOF
           {| frame_i := 0;
              frames := <[0%nat := Some blank_frame]>
                          (replicate (Z.to_nat MAX_FRAMES) None) |}).
  - reflexivity.
  - right; reflexivity.
  - reflexivity.
Defined.





(** ** Pipeline and pixel format converter *)

(** When sampling ends well with frames collected and the selector
    returns a frame, the result of the call is that of [encode_frame] on
    that frame. *)
Lemma extract_video_image_encodes (fuel : nat) (env : libenv) (img : Buffer)
  (sess : nat → packet_io) (stream err best : Z) (st : sampling)
  (frame : AVFrame) :
  read_frames fuel stream sess 0 init_sampling = Done (err, st) →
  err = 0 ∨ err = AVERROR_EOF →
  1 ≤ frame_i st →
  select_best_frame (frames st) = Some best →
  best ≠ -1 →
  load (frames st) best = Some (Some frame) →
  extract_video_image fuel env img sess stream
  = Done (encode_frame env img frame).
Proof.
  intros Hrun Herr Hone Hbest Hne Hframe.
  rewrite (extract_video_image_done _ _ _ _ _ _ _ Hrun).
  unfold finish.
  replace (if err =? AVERROR_EOF then 0 else err) with 0
    by (destruct Herr as [-> | ->]; done).
  simpl. destruct (Z.ltb_spec (frame_i st) 1); [lia|].
  rewrite Hbest. simpl.
  destruct (Z.eqb_spec best (-1)); [done|].
  rewrite Hframe. done.
Qed.

(** C7, as the claim states it, fails: when the context exists and the
    transform reports an error (a negative value of [sws_scale]), the
    converter still returns 0 and hands an image descriptor back. *)
Lemma transform_error_is_not_reported :
  ¬ (∀ (env : libenv) (img : Buffer) (frame : AVFrame),
       sws_getContext env (width frame) (height frame) = true →
       sws_scale_ret env < 0 →
       (encode_frame env img frame).1.1 ≠ 0 ∧
       (encode_frame env img frame).1.2 = img).
Proof.
  intros Hclaim.
  destruct (Hclaim env_scale_fails no_image black) as [Hcode _];
    [reflexivity | reflexivity |].
  apply Hcode. reflexivity.
Qed.

(** C7, amended: the converter fails, with the out-of-memory code,
    whenever the conversion context cannot be created; that error is
    returned to the caller of [extract_video_image] and the caller's image
    is untouched. Once the context exists the converter returns 0 whatever
    the transform reports: the value of [sws_scale] is not read. *)
Theorem conversion_failure (fuel : nat) (env : libenv) (img : Buffer)
  (sess : nat → packet_io) (stream err best : Z) (st : sampling)
  (frame : AVFrame) :
  read_frames fuel stream sess 0 init_sampling = Done (err, st) →
  err = 0 ∨ err = AVERROR_EOF →
  1 ≤ frame_i st →
  select_best_frame (frames st) = Some best →
  best ≠ -1 →
  load (frames st) best = Some (Some frame) →
  (sws_getContext env (width frame) (height frame) = false →
     encode_frame env img frame = (AVERROR ENOMEM, img, None) ∧
     extract_video_image fuel env img sess stream
     = Done (AVERROR ENOMEM, img, None)) ∧
  (sws_getContext env (width frame) (height frame) = true →
     ∀ r, let env' := {| sws_getContext := sws_getContext env;
                         malloc_ok := malloc_ok env;
                         sws_scale_ret := r |} in
       encode_frame env' img frame = encode_frame env img frame ∧
       (encode_frame env' img frame).1.1 = 0 ∧
       extract_video_image fuel env' img sess stream
       = Done (encode_frame env img frame)).
Proof.
  intros Hrun Herr Hone Hbest Hne Hframe. split.
  - intros Hctx.
    assert (Henc : encode_frame env img frame = (AVERROR ENOMEM, img, None)).
    { unfold encode_frame. rewrite Hctx. done. }
    split; [done|]. rewrite <- Henc.
    eapply extract_video_image_encodes; done.
  - intros Hctx r env'.
    assert (Henc : encode_frame env' img frame = encode_frame env img frame).
    { unfold encode_frame, malloc. done. }
    split; [done|]. split.
    + unfold encode_frame. simpl. rewrite Hctx. done.
    + rewrite <- Henc. eapply extract_video_image_encodes; done.
Qed.

Lemma conversion_failure_witness :
  (sws_getContext env_no_context (width black) (height black) = false →
     encode_frame env_no_context no_image black
       = (AVERROR ENOMEM, no_image, None) ∧
     extract_video_image 2 env_no_context no_image (script [packet 0 black]) 0
     = Done (AVERROR ENOMEM, no_image, None)) ∧
  (sws_getContext env_no_context (width black) (height black) = true →
     ∀ r, let env' := {| sws_getContext := sws_getContext env_no_context;
                         malloc_ok := malloc_ok env_no_context;
                         sws_scale_ret := r |} in
       encode_frame env' no_image black
         = encode_frame env_no_context no_image black ∧
       (encode_frame env' no_image black).1.1 = 0 ∧
       extract_video_image 2 env' no_image (script [packet 0 black]) 0
       = Done (encode_frame env_no_context no_image black)).
Proof.
  apply (conversion_failure 2 env_no_context no_image
           (script [packet 0 black]) 0 AVERROR_EOF 0
           {| frame_i := 1; frames := frames_of [black] |} black).
  - reflexivity.
  - right; reflexivity.
  - simpl; lia.
  - vm_compute; reflexivity.
  - discriminate.
  - reflexivity.
Defined.




(** ** Where the program departs from its description *)

(** C1 (defect of the program): two identical frames of one black pixel.
    Their histograms hold 1 in bins 0, 256 and 512, and so does the mean
    of the two. The averaging loops instead run [j] over the frames, not
    over the 768 bins, and assign the last frame's count instead of
    summing: bin 0 of [average] is 1/2 and bin 256 is never written. *)
Theorem average_is_not_the_mean :
  ∃ hists average,
    hist_frames (Z.to_nat MAX_FRAMES) 0 (frames_of [black; black]) zero_hists
      = Some (1, hists) ∧
    load hists 0 = load hists 1 ∧
    average_hists hists 1 = Some average ∧
    load average 0 ≫= double_val = Some (1 # 2)%Q ∧
    Qred (spec_average_bin hists 2 0) = 1%Q ∧
    load average 256 = Some double_zero ∧
    Qred (spec_average_bin hists 2 256) = 1%Q.
Proof.
  eexists. eexists.
  split; [vm_compute; reflexivity|].
  split; [vm_compute; reflexivity|].
  split; [vm_compute; reflexivity|].
  repeat split; vm_compute; reflexivity.
Qed.

(** The defect of the average changes the frame that is selected: of two
    identical frames followed by a frame that shares half their pixels,
    the first is the closest to the mean of the three, and the program
    returns the third. *)
Lemma average_defect_changes_selection :
  ∃ hists,
    hist_frames (Z.to_nat MAX_FRAMES) 0
      (frames_of [pair_frame Byte.x0a Byte.x0a; pair_frame Byte.x0a Byte.x0a;
                  pair_frame Byte.x0a Byte.x14]) zero_hists
      = Some (2, hists) ∧
    spec_select hists 3 = 0 ∧
    select_best_frame
      (frames_of [pair_frame Byte.x0a Byte.x0a; pair_frame Byte.x0a Byte.x0a;
                  pair_frame Byte.x0a Byte.x14]) = Some 2.
Proof.
  eexists. split; [vm_compute; reflexivity|].
  split; vm_compute; reflexivity.
Qed.

(** C2 (defect of the program): two frames of two pixels, the first of
    one colour, the second of two. Against the mean of the two histograms
    both frames have the same sum of squared errors, 3/2: the first index
    of minimum error is 0, which is what the selection described returns.
    The program scores the frames against the array its averaging loops
    leave, which holds 0 in every bin here: the scores are 12 and 6, and
    it returns index 1. *)
Theorem selector_misses_first_minimum :
  ∃ hists average,
    hist_frames (Z.to_nat MAX_FRAMES) 0
      (frames_of [pair_frame Byte.x0a Byte.x0a; pair_frame Byte.x0a Byte.x14])
      zero_hists
      = Some (1, hists) ∧
    Qred (spec_error hists 2 0) = (3 # 2)%Q ∧
    Qred (spec_error hists 2 1) = (3 # 2)%Q ∧
    spec_select hists 2 = 0 ∧
    average_hists hists 1 = Some average ∧
    frame_error hists average 0 ≫= double_val = Some 12%Q ∧
    frame_error hists average 1 ≫= double_val = Some 6%Q ∧
    select_best_frame
      (frames_of [pair_frame Byte.x0a Byte.x0a; pair_frame Byte.x0a Byte.x14])
      = Some 1.
Proof.
  eexists. eexists.
  split; [vm_compute; reflexivity|].
  split; [vm_compute; reflexivity|].
  split; [vm_compute; reflexivity|].
  split; [vm_compute; reflexivity|].
  split; [vm_compute; reflexivity|].
  repeat split; vm_compute; reflexivity.
Qed.

(** C8 (defect of the program): one frame is decoded, the next decode
    attempt is answered "need more input", then the stream ends. The
    sampler has collected one frame ([frame_i] = 1), yet the selector
    returns index 1: the buffer allocated for the unanswered attempt, which
    holds no picture, and which is then handed to [encode_frame]. *)
Theorem selected_index_outside_sample_set :
  ∃ st,
    read_frames 3 0 stalled_session 0 init_sampling = Done (AVERROR_EOF, st) ∧
    frame_i st = 1 ∧
    select_best_frame (frames st) = Some 1 ∧
    load (frames st) 1 = Some (Some blank_frame) ∧
    extract_video_image 3 env_ok no_image stalled_session 0
      = Done (encode_frame env_ok no_image blank_frame).
Proof.
  eexists.
  split; [vm_compute; reflexivity|].
  repeat split; vm_compute; reflexivity.
Qed.

(** C9 (defect of the program): the selector counts the leading non-null
    entries of [frames] instead of taking the sampler's count. After the
    session of C8 it builds two histograms for one collected frame, the
    second one empty, and averages over both: the selection differs from
    the one made on the collected frame alone. On a full array of 100
    frames the count it reaches is 100 where 99 is meant, and the
    averaging loop reads a row past the end of the table. *)
Theorem uncollected_buffer_is_averaged :
  (∃ st hists,
     read_frames 3 0 stalled_session 0 init_sampling
       = Done (AVERROR_EOF, st) ∧
     frame_i st = 1 ∧
     hist_frames (Z.to_nat MAX_FRAMES) 0 (frames st) zero_hists
       = Some (1, hists) ∧
     load hists 1 = Some (replicate (Z.to_nat HIST_SIZE) 0) ∧
     select_best_frame (frames st) = Some 1 ∧
     select_best_frame (frames_of [black]) = Some 0) ∧
  (∃ hists,
     hist_frames (Z.to_nat MAX_FRAMES) 0
       (replicate (Z.to_nat MAX_FRAMES) (Some black)) zero_hists
       = Some (100, hists) ∧
     load hists 100 = None ∧
     average_hists hists 100 = None ∧
     select_best_frame (replicate (Z.to_nat MAX_FRAMES) (Some black)) = None).
Proof.
  split.
  - eexists. eexists.
    split; [vm_compute; reflexivity|].
    split; [vm_compute; reflexivity|].
    split; [vm_compute; reflexivity|].
    repeat split; vm_compute; reflexivity.
  - eexists.
    split; [vm_compute; reflexivity|].
    repeat split; vm_compute; reflexivity.
Qed.

(** * Further properties of the program *)

(** ** compute_error *)

(** X1: on a histogram and an average array of 768 entries, the average
    holding zeros and finite numbers, [compute_error] returns a score that
    is never negative and never "not a number"; the score is [+0] when the
    average equals the histogram in every bin. *)
Theorem compute_error_nonnegative (hist : list Z) (median : list double) :
  length hist = Z.to_nat HIST_SIZE → length median = Z.to_nat HIST_SIZE →
  Forall (λ m, is_finite m = true) median →
  ∃ e, compute_error hist median = Some e ∧ nonnegative e ∧
    ((∀ i h, 0 ≤ i < HIST_SIZE → load hist i = Some h →
        load median i = Some (double_of_int h)) →
     e = double_zero).
Proof.
  intros Hh Hm Hfin. unfold compute_error.
  destruct (for_range_inv
    (λ i (s : double), nonnegative s ∧
       ((∀ i' h, 0 ≤ i' < i → load hist i' = Some h →
           load median i' = Some (double_of_int h)) →
        s = double_zero))
    (λ i sum_sq_err,
       m ← load median i;
       h ← load hist i;
       let err := double_sub m (double_of_int h) in
       Some (double_add sum_sq_err (double_mul err err))) HIST_SIZE
    double_zero)
    as (e & He & Hpos & Hzero); [done | done | | eauto].
  intros i s Hi [Hs Hz].
  destruct (load_in_range median i) as [m Hm']; [unfold HIST_SIZE in *; lia|].
  destruct (load_in_range hist i) as [x Hx']; [unfold HIST_SIZE in *; lia|].
  assert (Hmfin : is_finite m = true).
  { apply load_Some in Hm' as [_ Hm'].
    rewrite Forall_lookup in Hfin. eapply Hfin. done. }
  rewrite Hm', Hx'. cbn [mbind option_bind]. eexists. split; [done|]. split.
  - apply double_add_nonnegative; [done|].
    apply double_mul_square, double_sub_is_number; [done|].
    apply double_of_int_is_number.
  - intros Hall.
    rewrite Hz by (intros i' h Hi'; apply Hall; lia).
    specialize (Hall i x ltac:(lia) Hx'). rewrite Hm' in Hall.
    inversion Hall. subst m. rewrite double_sub_diag by done. done.
Qed.

Lemma compute_error_nonnegative_witness :
  ∃ e, compute_error (replicate (Z.to_nat HIST_SIZE) 0)
         (replicate (Z.to_nat HIST_SIZE) double_zero) = Some e ∧
    nonnegative e ∧
    ((∀ i h, 0 ≤ i < HIST_SIZE →
        load (replicate (Z.to_nat HIST_SIZE) 0) i = Some h →
        load (replicate (Z.to_nat HIST_SIZE) double_zero) i
        = Some (double_of_int h)) →
     e = double_zero).
Proof.
  apply (compute_error_nonnegative (replicate (Z.to_nat HIST_SIZE) 0)
           (replicate (Z.to_nat HIST_SIZE) double_zero)).
  - reflexivity.
  - reflexivity.
  - apply Forall_replicate. reflexivity.
Defined.

(** ** select_best_frame *)

Lemma for_loop_fails {St} (P : Z → St → Prop) (body : Z → St → option St)
  (n : nat) (lo m : Z) (s : St) :
  lo ≤ m < lo + Z.of_nat n → P lo s →
  (∀ i t, lo ≤ i < m → P i t → ∃ t', body i t = Some t' ∧ P (i + 1) t') →
  (∀ t, body m t = None) →
  for_loop n lo body s = None.
Proof.
  revert lo s. induction n as [|n IH]; intros lo s Hm H0 Hstep Hfail; [lia|].
  simpl. destruct (decide (lo = m)) as [->|Hne].
  - rewrite Hfail. done.
  - destruct (Hstep lo s) as (t & Ht & HP); [lia | done |].
    rewrite Ht. simpl. apply (IH (lo + 1) t); [lia | done | | done].
    intros i u Hi. apply Hstep. lia.
Qed.

Lemma for_loop_S {St} (body : Z → St → option St) (n : nat) (i : Z) (s : St) :
  for_loop (S n) i body s = s' ← body i s; for_loop n (i + 1) body s'.
Proof. reflexivity. Qed.

Lemma hist_frames_ge (n : nat) (frame_i r : Z) (frames : list (option AVFrame))
  (hists hists' : list (list Z)) :
  hist_frames n frame_i frames hists = Some (r, hists') → frame_i - 1 ≤ r.
Proof.
  revert frame_i hists. induction n as [|n IH]; intros frame_i hists Hrun;
    simpl in Hrun.
  - inversion Hrun. lia.
  - destruct (load frames frame_i) as [[f|]|]; simpl in Hrun;
      [|inversion Hrun; lia | discriminate].
    destruct (data f) as [plane|]; [|inversion Hrun; lia].
    destruct (load hists frame_i) as [row|]; [|discriminate]. simpl in Hrun.
    destruct (count_frame f plane row) as [row'|]; [|discriminate].
    simpl in Hrun.
    destruct (store hists frame_i row') as [hists1|]; [|discriminate].
    simpl in Hrun. apply IH in Hrun. lia.
Qed.

Lemma find_best_loop_nonneg (n : nat) (i best_i b : Z)
  (hists : list (list Z)) (average : list double) (min_sq_err : double) :
  0 ≤ i → 0 ≤ best_i →
  find_best_loop n i hists average best_i min_sq_err = Some b → 0 ≤ b.
Proof.
  revert i best_i min_sq_err.
  induction n as [|n IH]; intros i best_i min_sq_err Hi Hb Hrun;
    simpl in Hrun.
  - inversion Hrun. lia.
  - destruct (load hists i) as [row|]; [|discriminate]. simpl in Hrun.
    destruct (compute_error row average) as [e|]; [|discriminate].
    simpl in Hrun.
    destruct ((i =? 0) || double_lt e min_sq_err);
      apply IH in Hrun; lia.
Qed.

Lemma hist_frames_first (n : nat) (r : Z) (frames : list (option AVFrame))
  (hists hists' : list (list Z)) :
  hist_frames (S n) 0 frames hists = Some (r, hists') →
  (r = -1 ∧ hists' = hists ∧
   (load frames 0 = Some None ∨
    ∃ f, load frames 0 = Some (Some f) ∧ data f = None)) ∨
  (0 ≤ r ∧ ∃ f plane, load frames 0 = Some (Some f) ∧ data f = Some plane).
Proof.
  intros Hrun. simpl in Hrun.
  destruct (load frames 0) as [[f|]|]; simpl in Hrun; [| | discriminate].
  - destruct (data f) as [plane|] eqn:Hd.
    + right. split; [|eauto].
      destruct (load hists 0) as [row|]; [|discriminate]. simpl in Hrun.
      destruct (count_frame f plane row) as [row'|]; [|discriminate].
      simpl in Hrun.
      destruct (store hists 0 row') as [hists1|]; [|discriminate].
      simpl in Hrun. apply hist_frames_ge in Hrun. lia.
    + left. inversion Hrun. split; [lia|]. split; [done|]. right. eauto.
  - left. inversion Hrun. split; [lia|]. split; [done|]. by left.
Qed.

(** X2: [select_best_frame] returns -1 exactly when the first entry of
    the array is a null pointer or a frame whose data pointer is null:
    with a first frame to read, every value it returns is an index from 0
    up. *)
Theorem select_best_frame_no_frame (frames : list (option AVFrame)) :
  select_best_frame frames = Some (-1) ↔
  load frames 0 = Some None ∨
  ∃ f, load frames 0 = Some (Some f) ∧ data f = None.
Proof.
  unfold select_best_frame. change (Z.to_nat MAX_FRAMES) with (S 99).
  generalize zero_hists. intros hists0. split.
  - intros Hsel.
    destruct (hist_frames (S 99) 0 frames hists0) as [[r hists]|] eqn:Hh;
      [|discriminate].
    apply hist_frames_first in Hh as [(_ & _ & Hnull) | (Hr & _)]; [done|].
    exfalso. cbn [mbind option_bind fst snd] in Hsel.
    destruct (Z.eqb_spec r (-1)); [lia|].
    destruct (average_hists hists r) as [average|]; [|discriminate].
    cbn [mbind option_bind] in Hsel.
    apply find_best_loop_nonneg in Hsel; lia.
  - intros Hnull.
    assert (Hrun : hist_frames (S 99) 0 frames hists0 = Some (-1, hists0)).
    { cbn [hist_frames].
      destruct Hnull as [H0 | (f & H0 & Hd)]; rewrite H0;
        cbn [mbind option_bind]; [done | rewrite Hd; done]. }
    rewrite Hrun. done.
Qed.

Lemma usable_black : usable black.
Proof.
  exists [Byte.x00; Byte.x00; Byte.x00].
  split; [reflexivity|]. split; [simpl; lia|]. split; [simpl; lia|].
  split; [vm_compute; discriminate|]. split; [vm_compute; discriminate|].
  intros j i k; simpl; lia.
Defined.

(** X3: on an array that holds between 1 and 99 usable frames followed by
    null pointers, [select_best_frame] returns the index of one of those
    frames. *)
Theorem select_best_frame_valid_index (l : list AVFrame) :
  l ≠ [] → (length l < 100)%nat → Forall usable l →
  ∃ best f,
    select_best_frame (frames_of l) = Some best ∧
    0 ≤ best < Z.of_nat (length l) ∧
    load (frames_of l) best = Some (Some f) ∧
    l !! Z.to_nat best = Some f.
Proof.
  intros Hne Hlen Huse.
  destruct (select_best_frame_first_minimum l Hne Hlen Huse)
    as (hists & average & best & _ & _ & Hsel & Hrange & _).
  destruct (lookup_lt_is_Some_2 l (Z.to_nat best)) as [f Hf]; [lia|].
  exists best, f. split; [done|]. split; [done|]. split; [|done].
  rewrite frames_of_load by (unfold MAX_FRAMES; lia). rewrite Hf. done.
Qed.

Lemma select_best_frame_valid_index_witness :
  ∃ best f,
    select_best_frame (frames_of [black; black]) = Some best ∧
    0 ≤ best < Z.of_nat (length [black; black]) ∧
    load (frames_of [black; black]) best = Some (Some f) ∧
    [black; black] !! Z.to_nat best = Some f.
Proof.
  apply (select_best_frame_valid_index [black; black]).
  - discriminate.
  - simpl; lia.
  - constructor; [exact usable_black|].
    constructor; [exact usable_black | constructor].
Defined.

(** X17: on an array that holds between 1 and 99 usable frames followed
    by null pointers, the frame [select_best_frame] returns is the first
    frame of lowest score, the scores being the doubles [compute_error]
    gives against the array [average] the program computed: no frame has
    a score below its score, every frame before it has a score above (or
    one that is not a number), and of two frames with the same histogram
    the later is never returned. *)
Theorem selected_frame_is_first_minimum (l : list AVFrame) :
  l ≠ [] → (length l < 100)%nat → Forall usable l →
  ∃ hists average best,
    hist_frames (Z.to_nat MAX_FRAMES) 0 (frames_of l) zero_hists
      = Some (Z.of_nat (length l) - 1, hists) ∧
    average_hists hists (Z.of_nat (length l) - 1) = Some average ∧
    select_best_frame (frames_of l) = Some best ∧
    first_minimum hists average (Z.of_nat (length l)) best ∧
    ∀ i j, 0 ≤ i < j → j < Z.of_nat (length l) →
      load hists i = load hists j → best ≠ j.
Proof.
  intros Hne Hlen Huse.
  destruct (select_best_frame_first_minimum l Hne Hlen Huse)
    as (hists & average & best & Hh & Ha & Hsel & Hmin).
  exists hists, average, best.
  split; [done|]. split; [done|]. split; [done|]. split; [done|].
  intros i j Hij Hj Hsame ->.
  destruct Hmin as (_ & e & He & Hnum & Hmin).
  destruct (Hmin i e) as [_ Hlt]; [lia | |].
  - unfold frame_error in *. rewrite Hsame. done.
  - destruct (Hlt (proj2 Hij)) as [Hlt' | Hnan].
    + rewrite double_lt_irrefl in Hlt'. done.
    + rewrite Hnum in Hnan by lia. done.
Qed.

Lemma selected_frame_is_first_minimum_witness :
  ∃ hists average best,
    hist_frames (Z.to_nat MAX_FRAMES) 0 (frames_of [black; black]) zero_hists
      = Some (Z.of_nat (length [black; black]) - 1, hists) ∧
    average_hists hists (Z.of_nat (length [black; black]) - 1)
      = Some average ∧
    select_best_frame (frames_of [black; black]) = Some best ∧
    first_minimum hists average (Z.of_nat (length [black; black])) best ∧
    ∀ i j, 0 ≤ i < j → j < Z.of_nat (length [black; black]) →
      load hists i = load hists j → best ≠ j.
Proof.
  apply (selected_frame_is_first_minimum [black; black]).
  - discriminate.
  - simpl; lia.
  - constructor; [exact usable_black|].
    constructor; [exact usable_black | constructor].
Defined.

(** X4: the array [average] depends on no frame but the last: two tables
    of histograms with the same row [frame_i] get the same average, and
    every bin whose number is above [frame_i] is left at zero. *)
Theorem average_ignores_earlier_frames (hists hists' : list (list Z))
  (frame_i : Z) :
  0 ≤ frame_i < Z.of_nat (length hists) →
  0 ≤ frame_i < Z.of_nat (length hists') →
  frame_i < HIST_SIZE →
  Forall (λ row, length row = Z.to_nat HIST_SIZE) hists →
  Forall (λ row, length row = Z.to_nat HIST_SIZE) hists' →
  load hists frame_i = load hists' frame_i →
  ∃ average,
    average_hists hists frame_i = Some average ∧
    average_hists hists' frame_i = Some average ∧
    ∀ j, frame_i < j < HIST_SIZE → load average j = Some double_zero.
Proof.
  intros Hfi Hfi' Hbins Hrows Hrows' Hsame.
  destruct (average_hists_spec hists frame_i Hfi Hbins Hrows)
    as (avg & last & Hlast & Ha & Hlen & Hval).
  destruct (average_hists_spec hists' frame_i Hfi' Hbins Hrows')
    as (avg' & last' & Hlast' & Ha' & Hlen' & Hval').
  rewrite Hsame, Hlast' in Hlast. inversion Hlast. subst last'.
  assert (Hlastlen : length last = Z.to_nat HIST_SIZE).
  { apply load_Some in Hlast' as [_ Hl].
    rewrite Forall_lookup in Hrows'. eapply Hrows'. done. }
  assert (Heq : avg = avg').
  { apply list_eq. intros n.
    destruct (decide (n < Z.to_nat HIST_SIZE)%nat) as [Hn|Hn].
    - destruct (load_in_range last (Z.of_nat n)) as [x Hx]; [lia|].
      specialize (Hval (Z.of_nat n) x ltac:(lia) Hx).
      specialize (Hval' (Z.of_nat n) x ltac:(lia) Hx).
      apply load_Some in Hval as [_ Hval]. apply load_Some in Hval' as [_ Hval'].
      rewrite Nat2Z.id in Hval, Hval'. congruence.
    - rewrite !lookup_ge_None_2 by lia. done. }
  subst avg'. exists avg. split; [done|]. split; [done|].
  intros j Hj.
  destruct (load_in_range last j) as [x Hx]; [lia|].
  rewrite (Hval j x ltac:(lia) Hx).
  destruct (Z.leb_spec j frame_i); [lia | done].
Qed.

Lemma average_ignores_earlier_frames_witness :
  ∃ average,
    average_hists [replicate (Z.to_nat HIST_SIZE) 5;
                   replicate (Z.to_nat HIST_SIZE) 1] 1 = Some average ∧
    average_hists [replicate (Z.to_nat HIST_SIZE) 0;
                   replicate (Z.to_nat HIST_SIZE) 1] 1 = Some average ∧
    ∀ j, 1 < j < HIST_SIZE → load average j = Some double_zero.
Proof.
  apply (average_ignores_earlier_frames
           [replicate (Z.to_nat HIST_SIZE) 5; replicate (Z.to_nat HIST_SIZE) 1]
           [replicate (Z.to_nat HIST_SIZE) 0; replicate (Z.to_nat HIST_SIZE) 1]
           1).
  - simpl; lia.
  - simpl; lia.
  - vm_compute; reflexivity.
  - repeat constructor.
  - repeat constructor.
  - reflexivity.
Defined.

(** X5: on an array that holds 100 usable frames the first loop ends with
    [frame_i] at 100, and the averaging loop then reads row 100 of a table
    of 100 rows: the behaviour of [select_best_frame] is undefined. *)
Theorem select_best_frame_full_array (l : list AVFrame) :
  length l = 100%nat → Forall usable l →
  select_best_frame (frames_of l) = None.
Proof.
  intros Hlen Huse.
  destruct (hist_frames_spec l (Z.to_nat MAX_FRAMES) 0 zero_hists)
    as (hists & Hh & Hhlen & Hrows); [lia | done | done | lia | done | | |].
  { apply Forall_replicate. done. }
  { intros i Hi. apply load_Some. split; [lia|].
    apply lookup_replicate_2. unfold MAX_FRAMES in *. lia. }
  case_decide; [|lia].
  change (Z.to_nat MAX_FRAMES) with 100%nat in Hhlen.
  unfold select_best_frame. rewrite Hh.
  cbn [mbind option_bind fst snd].
  change (100 =? -1) with false. cbv iota.
  assert (Havg : average_hists hists 100 = None); [|by rewrite Havg].
  unfold average_hists, for_range.
  change (Z.to_nat (100 + 1 - 0)) with (S 100).
  rewrite for_loop_S.
  assert (Hinner : for_loop (S 100) 0
             (λ i average, row ← load hists i; c ← load row 0;
                           store average 0 (double_of_int c))
             (replicate (Z.to_nat HIST_SIZE) double_zero) = None);
    [|by rewrite Hinner].
  apply (for_loop_fails (λ _ (a : list double), length a = Z.to_nat HIST_SIZE)
           _ _ _ 100); [lia | apply length_replicate | |].
  - intros i t Hi Ht.
    destruct (load_in_range hists i) as [row Hrow]; [lia|].
    assert (Hrowlen : length row = Z.to_nat HIST_SIZE).
    { pose proof Hrow as Hrow'. apply load_Some in Hrow' as [_ Hrow'].
      rewrite Forall_lookup in Hrows. eapply Hrows. done. }
    destruct (load_in_range row 0) as [c Hc]; [rewrite Hrowlen; done|].
    rewrite Hrow. simpl. rewrite Hc. simpl.
    rewrite store_in_range by (rewrite Ht; done).
    eexists. split; [done|]. rewrite length_insert. done.
  - intros t. rewrite (load_out_of_range hists 100) by lia. done.
Qed.

Lemma select_best_frame_full_array_witness :
  select_best_frame (frames_of (replicate 100 black)) = None.
Proof.
  apply (select_best_frame_full_array (replicate 100 black)).
  - reflexivity.
  - apply Forall_replicate. exact usable_black.
Defined.

(** ** The sampling loop: what [frames] holds *)

Lemma frames_of_snoc (l : list AVFrame) (f : AVFrame) :
  (length l < 100)%nat →
  <[length l := Some f]> (frames_of l) = frames_of (l ++ [f]).
Proof.
  intros Hl. unfold frames_of. change (Z.to_nat MAX_FRAMES) with 100%nat.
  rewrite length_app. simpl length.
  replace (100 - length l)%nat with (S (100 - (length l + 1))) by lia.
  replace (length l) with (length (Some <$> l) + 0)%nat at 1
    by (rewrite length_fmap; lia).
  rewrite insert_app_r. simpl. rewrite fmap_app. simpl.
  rewrite <- app_assoc. done.
Qed.

Lemma frames_of_replace_last (l : list AVFrame) (f g : AVFrame) :
  (length l < 100)%nat →
  <[length l := Some f]> (frames_of (l ++ [g])) = frames_of (l ++ [f]).
Proof.
  intros Hl. unfold frames_of. rewrite !fmap_app, !length_app. simpl.
  rewrite <- !app_assoc.
  replace (length l) with (length (Some <$> l) + 0)%nat at 1
    by (rewrite length_fmap; lia).
  rewrite insert_app_r. done.
Qed.

(** While the loop runs, [frame_i] counts the pictures delivered so far
    and [frames] holds them in their order, followed by null pointers or,
    first, by one buffer without picture. *)
Lemma sampling_at_collecting (stream : Z) (sess : nat → packet_io) (n : nat)
  (st : sampling) :
  sampling_at n stream sess = Some st →
  (length (delivered stream sess n) < 100)%nat ∧
  frame_i st = Z.of_nat (length (delivered stream sess n)) ∧
  (frames st = frames_of (delivered stream sess n) ∨
   frames st = frames_of (delivered stream sess n ++ [blank_frame])).
Proof.
  revert st. induction n as [|n IH]; intros st Hat; simpl in Hat.
  - inversion Hat. simpl. split; [lia|]. split; [done|]. by left.
  - destruct (sampling_at n stream sess) as [st0|]; [|discriminate].
    destruct (IH st0 eq_refl) as (Hlen & Hfi & Hfr). clear IH.
    simpl in Hat. simpl delivered. unfold delivers.
    destruct (read_step stream (sess n) st0) as [[st1|]|] eqn:Hstep;
      try discriminate.
    inversion Hat. subst st1. clear Hat. unfold read_step in Hstep.
    destruct (Z.eqb_spec (read_err (sess n)) 0) as [Hr|Hr]; simpl.
    + destruct (Z.eqb_spec (stream_index (sess n)) stream) as [Hs|Hs]; simpl.
      * destruct (Z.ltb_spec (send_err (sess n)) 0); [discriminate|]. simpl.
        destruct (load (frames st0) (frame_i st0)) as [slot|];
          [|discriminate].
        simpl in Hstep.
        destruct (is_null slot && negb (alloc_ok (sess n)));
          [discriminate|].
        destruct (store (frames st0) (frame_i st0) _) as [frames'|] eqn:Hst;
          [|discriminate].
        simpl in Hstep. apply store_Some in Hst as [_ ->].
        destruct (Z.eqb_spec (recv_err (sess n)) 0) as [Hv|Hv].
        -- destruct (Z.eqb_spec (frame_i st0 + 1) MAX_FRAMES) as [|Hfull];
             [discriminate|].
           inversion Hstep. subst st. simpl. clear Hstep.
           rewrite length_app. simpl. unfold MAX_FRAMES in Hfull.
           split; [lia|]. split; [lia|]. left.
           rewrite Hfi, Nat2Z.id.
           destruct Hfr as [-> | ->];
             [apply frames_of_snoc | apply frames_of_replace_last]; done.
        -- destruct (recv_err (sess n) =? AVERROR EAGAIN); [|discriminate].
           inversion Hstep. subst st. simpl. clear Hstep.
           rewrite app_nil_r. split; [done|]. split; [done|]. right.
           rewrite Hfi, Nat2Z.id.
           destruct Hfr as [-> | ->];
             [apply frames_of_snoc | apply frames_of_replace_last]; done.
      * inversion Hstep. subst st. rewrite app_nil_r. done.
    + destruct (read_err (sess n) =? -1); [|discriminate].
      destruct (frame_i st0 =? 0); [discriminate|].
      destruct (load (frames st0) 0) as [[f|]|]; discriminate.
Qed.

Lemma read_frames_ends (stream : Z) (sess : nat → packet_io) (fuel n : nat)
  (st0 st : sampling) (err : Z) :
  sampling_at n stream sess = Some st0 →
  read_frames fuel stream sess n st0 = Done (err, st) →
  ∃ n' st1, (n ≤ n' < n + fuel)%nat ∧
    sampling_at n' stream sess = Some st1 ∧
    read_step stream (sess n') st1 = Some (End err st).
Proof.
  revert n st0. induction fuel as [|fuel IH]; intros n st0 Hat Hrun;
    [discriminate|].
  simpl in Hrun.
  destruct (read_step stream (sess n) st0) as [[st1|err1 st1]|] eqn:Hstep;
    [| |discriminate].
  - destruct (IH (S n) st1) as (n' & st2 & Hn' & Hat' & Hend); [|done|].
    + simpl. rewrite Hat. simpl. rewrite Hstep. done.
    + exists n', st2. split; [lia | done].
  - inversion Hrun. subst. exists n, st0. split; [lia | done].
Qed.

(** The locals when the loop has ended. *)
Lemma read_frames_final (stream : Z) (sess : nat → packet_io) (fuel : nat)
  (st : sampling) (err : Z) :
  read_frames fuel stream sess 0 init_sampling = Done (err, st) →
  ∃ n st0 l, (n < fuel)%nat ∧
    sampling_at n stream sess = Some st0 ∧
    read_step stream (sess n) st0 = Some (End err st) ∧
    (length (delivered stream sess n) < 100)%nat ∧
    (l = delivered stream sess n ∨
     l = delivered stream sess n ++ [recv_frame (sess n)] ∧
     delivers stream (sess n) = true ∧ err = 0 ∧ length l = 100%nat) ∧
    (length l ≤ 100)%nat ∧
    frame_i st = Z.of_nat (length l) ∧
    (frames st = frames_of l ∨
     (length l < 100)%nat ∧ frames st = frames_of (l ++ [blank_frame])).
Proof.
  intros Hrun.
  destruct (read_frames_ends stream sess fuel 0 init_sampling st err eq_refl Hrun)
    as (n & st0 & Hn & Hat & Hstep).
  destruct (sampling_at_collecting _ _ _ _ Hat) as (Hlen & Hfi & Hfr).
  exists n, st0.
  cut (∃ l, (n < fuel)%nat ∧
    (l = delivered stream sess n ∨
     l = delivered stream sess n ++ [recv_frame (sess n)] ∧
     delivers stream (sess n) = true ∧ err = 0 ∧ length l = 100%nat) ∧
    (length l ≤ 100)%nat ∧
    frame_i st = Z.of_nat (length l) ∧
    (frames st = frames_of l ∨
     (length l < 100)%nat ∧ frames st = frames_of (l ++ [blank_frame]))).
  { intros (l & Hn' & Hrest). exists l. done. }
  unfold read_step in Hstep. unfold delivers.
  set (l := delivered stream sess n) in *.
  assert (Hkeep : ∀ e, Some (End e st0) = Some (End err st) →
            ∃ l0, (n < fuel)%nat ∧
              (l0 = l ∨ l0 = l ++ [recv_frame (sess n)] ∧
               (read_err (sess n) =? 0) && (stream_index (sess n) =? stream) &&
               negb (send_err (sess n) <? 0) && (recv_err (sess n) =? 0) = true ∧
               err = 0 ∧ length l0 = 100%nat) ∧
              (length l0 ≤ 100)%nat ∧ frame_i st = Z.of_nat (length l0) ∧
              (frames st = frames_of l0 ∨
               (length l0 < 100)%nat ∧ frames st = frames_of (l0 ++ [blank_frame]))).
  { intros e He. inversion He. subst.
    exists l. split; [lia|]. split; [by left|]. split; [lia|].
    split; [done|]. destruct Hfr; [by left | by right]. }
  destruct (Z.eqb_spec (read_err (sess n)) 0) as [Hr|Hr]; simpl.
  - destruct (Z.eqb_spec (stream_index (sess n)) stream) as [Hs|Hs]; simpl;
      [|discriminate].
    destruct (Z.ltb_spec (send_err (sess n)) 0); [by eapply Hkeep|]. simpl.
    destruct (load (frames st0) (frame_i st0)) as [slot|]; [|discriminate].
    simpl in Hstep.
    destruct (is_null slot && negb (alloc_ok (sess n))); [by eapply Hkeep|].
    destruct (store (frames st0) (frame_i st0) _) as [frames'|] eqn:Hst;
      [|discriminate].
    simpl in Hstep. apply store_Some in Hst as [_ ->].
    destruct (Z.eqb_spec (recv_err (sess n)) 0) as [Hv|Hv].
    + destruct (Z.eqb_spec (frame_i st0 + 1) MAX_FRAMES) as [Hfull|];
        [|discriminate].
      inversion Hstep. subst err st. simpl. clear Hstep Hkeep.
      unfold MAX_FRAMES in Hfull.
      exists (l ++ [recv_frame (sess n)]). rewrite length_app. simpl.
      split; [lia|]. split; [right; repeat split; lia|].
      split; [lia|]. split; [lia|]. left.
      rewrite Hfi, Nat2Z.id.
      destruct Hfr as [-> | ->];
        [apply frames_of_snoc | apply frames_of_replace_last]; done.
    + destruct (recv_err (sess n) =? AVERROR EAGAIN); [discriminate|].
      inversion Hstep. subst err st. simpl. clear Hstep Hkeep.
      exists l. split; [lia|]. split; [by left|]. split; [lia|].
      split; [done|]. right. split; [done|].
      rewrite Hfi, Nat2Z.id.
      destruct Hfr as [-> | ->];
        [apply frames_of_snoc | apply frames_of_replace_last]; done.
  - destruct (read_err (sess n) =? -1); [|by eapply Hkeep].
    destruct (frame_i st0 =? 0); [by eapply Hkeep|].
    destruct (load (frames st0) 0) as [[f|]|]; simpl in Hstep;
      [by eapply Hkeep | discriminate | discriminate].
Qed.

(** X6: the sampling loop ends at one turn [n]: it was running at the
    start of that turn and left it there. [frame_i] is then the number of
    pictures the decoder has delivered for the target stream in the turns
    before [n], and in turn [n] too when the loop ended on the cap of 100
    frames; the first [frame_i] entries of [frames] are those pictures in
    the order of their delivery, and every entry after index [frame_i] is
    a null pointer. *)
Theorem sampled_frames_in_decode_order (stream : Z) (sess : nat → packet_io)
  (fuel : nat) (st : sampling) (err : Z) :
  read_frames fuel stream sess 0 init_sampling = Done (err, st) →
  ∃ n st0, (n < fuel)%nat ∧
    sampling_at n stream sess = Some st0 ∧
    read_step stream (sess n) st0 = Some (End err st) ∧
    let l := delivered stream sess
               (if frame_i st =? MAX_FRAMES then S n else n) in
    frame_i st = Z.of_nat (length l) ∧
    length (frames st) = Z.to_nat MAX_FRAMES ∧
    take (length l) (frames st) = Some <$> l ∧
    ∀ i, frame_i st < i < MAX_FRAMES → load (frames st) i = Some None.
Proof.
  intros Hrun.
  destruct (read_frames_final stream sess fuel st err Hrun)
    as (n & st0 & l & Hn & Hat & Hend & Hbelow & Hl & Hlen & Hfi & Hfr).
  exists n, st0. split; [done|]. split; [done|]. split; [done|].
  assert (Hturn : delivered stream sess
                    (if frame_i st =? MAX_FRAMES then S n else n) = l).
  { destruct Hl as [-> | (-> & Hd & _ & Hfull)].
    - destruct (Z.eqb_spec (frame_i st) MAX_FRAMES) as [E|E]; [|done].
      unfold MAX_FRAMES in E. lia.
    - destruct (Z.eqb_spec (frame_i st) MAX_FRAMES) as [E|E].
      + simpl. rewrite Hd. done.
      + unfold MAX_FRAMES in E. lia. }
  rewrite Hturn. cbv zeta. split; [done|].
  assert (Hnull : ∀ (l' : list AVFrame) i,
            Z.of_nat (length l') ≤ i < MAX_FRAMES →
            load (frames_of l') i = Some None).
  { intros l' i Hi. rewrite frames_of_load by lia.
    rewrite lookup_ge_None_2 by lia. done. }
  destruct Hfr as [-> | [Hlt ->]].
  - split; [by apply frames_of_length|]. split.
    + unfold frames_of. rewrite <- (length_fmap Some l) at 1.
      apply take_app_length.
    + intros i Hi. apply Hnull. lia.
  - split; [apply frames_of_length; rewrite length_app; simpl; lia|]. split.
    + unfold frames_of. rewrite fmap_app, <- app_assoc.
      rewrite <- (length_fmap Some l) at 1. apply take_app_length.
    + intros i Hi. apply Hnull. rewrite length_app. simpl. lia.
Qed.

Lemma sampled_frames_in_decode_order_witness :
  ∃ n st0, (n < 3)%nat ∧
    sampling_at n 0 stalled_session = Some st0 ∧
    read_step 0 (stalled_session n) st0
    = Some (End AVERROR_EOF
              {| frame_i := 1; frames := frames_of [black; blank_frame] |}) ∧
    let l := delivered 0 stalled_session
               (if frame_i {| frame_i := 1;
                              frames := frames_of [black; blank_frame] |}
                   =? MAX_FRAMES then S n else n) in
    frame_i {| frame_i := 1; frames := frames_of [black; blank_frame] |}
      = Z.of_nat (length l) ∧
    length (frames {| frame_i := 1;
                      frames := frames_of [black; blank_frame] |})
      = Z.to_nat MAX_FRAMES ∧
    take (length l)
      (frames {| frame_i := 1; frames := frames_of [black; blank_frame] |})
      = Some <$> l ∧
    ∀ i, frame_i {| frame_i := 1; frames := frames_of [black; blank_frame] |}
           < i < MAX_FRAMES →
      load (frames {| frame_i := 1;
                      frames := frames_of [black; blank_frame] |}) i
      = Some None.
Proof.
  apply (sampled_frames_in_decode_order 0 stalled_session 3
           {| frame_i := 1; frames := frames_of [black; blank_frame] |}
           AVERROR_EOF).
  reflexivity.
Defined.

(** X7: whatever the demuxer and the decoder answer, the sampling loop
    never indexes [frames] outside its 100 entries and never dereferences
    a null [frames[0]]: no run of it is undefined. *)
Theorem sampling_is_defined (stream : Z) (sess : nat → packet_io)
  (fuel : nat) :
  read_frames fuel stream sess 0 init_sampling ≠ Undefined.
Proof.
  assert (Hgen : ∀ n st, sampling_ok st →
            read_frames fuel stream sess n st ≠ Undefined).
  { induction fuel as [|fuel IH]; intros n st Hok; [done|].
    simpl.
    destruct (read_step_ok stream (sess n) st Hok) as (r & Hr & Hspec).
    rewrite Hr. destruct r as [st1 | err1 st1]; [|done].
    apply IH. tauto. }
  apply Hgen, sampling_ok_init.
Qed.

(** ** Release of the frames *)

Lemma release_loop_spec (l : list AVFrame) (a k n total : nat) :
  Forall (λ f, data f ≠ None) l →
  (a + length l + k = total)%nat → (n + a = total)%nat →
  release_loop n (Z.of_nat a)
    (replicate a None ++ (Some <$> l) ++ replicate k None)
  = Some (replicate total None).
Proof.
  intros Hdata. revert a n.
  induction Hdata as [|f l Hf Hl IH]; intros a n Hsum Hn; simpl in Hsum.
  - simpl. rewrite <- replicate_add. replace (a + k)%nat with total by lia.
    destruct n as [|n]; [done|]. simpl.
    unfold load. destruct (Z.leb_spec 0 (Z.of_nat a)); [|lia].
    rewrite Nat2Z.id, lookup_replicate_2 by lia. done.
  - destruct n as [|n]; [lia|]. simpl.
    unfold load at 1. destruct (Z.leb_spec 0 (Z.of_nat a)); [|lia].
    rewrite Nat2Z.id.
    rewrite lookup_app_r by (rewrite length_replicate; lia).
    rewrite length_replicate, Nat.sub_diag. simpl.
    destruct (data f) eqn:Hd; [|done]. simpl.
    rewrite store_in_range
      by (rewrite length_app, length_replicate; simpl; lia).
    simpl. rewrite Nat2Z.id.
    replace a with (length (replicate a (@None AVFrame)) + 0)%nat at 2
      by (rewrite length_replicate; lia).
    rewrite insert_app_r. simpl.
    rewrite cons_middle, app_assoc, <- replicate_S_end.
    replace (Z.of_nat a + 1) with (Z.of_nat (S a)) by lia.
    apply (IH (S a) n); lia.
Qed.

(** X8: when the decoder's frames have their data pointer set (as every
    [AVFrame] has), the last loop of [extract_video_image] frees every
    frame the sampling loop left in [frames], the buffer of an unanswered
    decode attempt included: all 100 entries are null afterwards,
    whatever way the sampling ended. *)
Theorem frames_all_released (stream : Z) (sess : nat → packet_io)
  (fuel : nat) (st : sampling) (err : Z) :
  (∀ m, data (recv_frame (sess m)) ≠ None) →
  read_frames fuel stream sess 0 init_sampling = Done (err, st) →
  release_frames (frames st) = Some (replicate (Z.to_nat MAX_FRAMES) None).
Proof.
  intros Hdata Hrun.
  destruct (read_frames_final stream sess fuel st err Hrun)
    as (n & st0 & l & Hn & _ & _ & _ & Hl & Hlen & Hfi & Hfr).
  assert (Hdel : ∀ k, Forall (λ f, data f ≠ None) (delivered stream sess k)).
  { induction k as [|k IH]; simpl; [constructor|].
    apply Forall_app. split; [done|].
    destruct (delivers stream (sess k)); repeat constructor. apply Hdata. }
  assert (Hall : Forall (λ f, data f ≠ None) l).
  { destruct Hl as [-> | (-> & _)]; [apply Hdel|].
    apply Forall_app. split; [apply Hdel|]. repeat constructor. apply Hdata. }
  unfold release_frames. change (Z.to_nat MAX_FRAMES) with 100%nat.
  destruct Hfr as [-> | [Hlt ->]]; unfold frames_of;
    change (Z.to_nat MAX_FRAMES) with 100%nat.
  - apply (release_loop_spec l 0 (100 - length l) 100 100);
      [done | lia | lia].
  - apply (release_loop_spec (l ++ [blank_frame]) 0
             (100 - length (l ++ [blank_frame])) 100 100); [| |lia].
    + apply Forall_app. split; [done|]. repeat constructor. done.
    + rewrite length_app. simpl. lia.
Qed.

Lemma frames_all_released_witness :
  release_frames (frames {| frame_i := 1;
                            frames := frames_of [black; blank_frame] |})
  = Some (replicate (Z.to_nat MAX_FRAMES) None).
Proof.
  apply (frames_all_released 0 stalled_session 3
           {| frame_i := 1; frames := frames_of [black; blank_frame] |}
           AVERROR_EOF).
  - intros m. unfold stalled_session, script.
    destruct m as [|[|[|m]]]; simpl; discriminate.
  - reflexivity.
Defined.

(** ** Errors and results of extract_video_image *)

(** X9: when [av_read_frame] fails at a turn the loop has reached, with a
    code other than -1 and end of stream, [extract_video_image] returns
    that code and leaves the caller's image untouched. *)
Theorem demuxer_error_returned (fuel n : nat) (env : libenv) (img : Buffer)
  (sess : nat → packet_io) (stream : Z) (st : sampling) :
  sampling_at n stream sess = Some st → (n < fuel)%nat →
  read_err (sess n) ≠ 0 → read_err (sess n) ≠ -1 →
  read_err (sess n) ≠ AVERROR_EOF →
  extract_video_image fuel env img sess stream
  = Done (read_err (sess n), img, None).
Proof.
  intros Hat Hfuel H0 H1 Heof.
  assert (Hrun : read_frames fuel stream sess 0 init_sampling
                 = Done (read_err (sess n), st)).
  { replace fuel with (n + S (fuel - S n))%nat by lia.
    rewrite (read_frames_from _ _ _ _ _ Hat). simpl. unfold read_step.
    destruct (Z.eqb_spec (read_err (sess n)) 0); [done|].
    destruct (Z.eqb_spec (read_err (sess n)) (-1)); done. }
  rewrite (extract_video_image_done _ _ _ _ _ _ _ Hrun). unfold finish.
  destruct (Z.eqb_spec (read_err (sess n)) AVERROR_EOF); [done|].
  destruct (Z.eqb_spec (read_err (sess n)) 0); done.
Qed.

Lemma demuxer_error_returned_witness :
  extract_video_image 2 env_ok no_image
    (script [packet 0 black; read_failure (-5)]) 0
  = Done (read_err (script [packet 0 black; read_failure (-5)] 1),
          no_image, None).
Proof.
  apply (demuxer_error_returned 2 1 env_ok no_image
           (script [packet 0 black; read_failure (-5)]) 0
           {| frame_i := 1; frames := frames_of [black] |}).
  - reflexivity.
  - lia.
  - discriminate.
  - discriminate.
  - discriminate.
Defined.

(** X10: at a turn the loop has reached with a packet of the target
    stream, a failure of the decoder ends the call with the image
    untouched: a negative code of [avcodec_send_packet] is returned as it
    is, a frame that cannot be allocated gives the out-of-memory code, and
    a code of [avcodec_receive_frame] other than 0 and "need more input"
    is returned as it is (each code being other than end of stream). *)
Theorem decoder_error_returned (fuel n : nat) (env : libenv) (img : Buffer)
  (sess : nat → packet_io) (stream : Z) (st : sampling) :
  sampling_at n stream sess = Some st → (n < fuel)%nat →
  read_err (sess n) = 0 → stream_index (sess n) = stream →
  (send_err (sess n) < 0 → send_err (sess n) ≠ AVERROR_EOF →
   extract_video_image fuel env img sess stream
   = Done (send_err (sess n), img, None)) ∧
  (0 ≤ send_err (sess n) → load (frames st) (frame_i st) = Some None →
   alloc_ok (sess n) = false →
   extract_video_image fuel env img sess stream
   = Done (AVERROR ENOMEM, img, None)) ∧
  (0 ≤ send_err (sess n) → alloc_ok (sess n) = true →
   recv_err (sess n) ≠ 0 → recv_err (sess n) ≠ AVERROR EAGAIN →
   recv_err (sess n) ≠ AVERROR_EOF →
   extract_video_image fuel env img sess stream
   = Done (recv_err (sess n), img, None)).
Proof.
  intros Hat Hfuel Hread Hstream.
  pose proof (sampling_at_ok _ _ _ _ Hat) as (Hfi & Hlen & _).
  assert (Hfrom : ∀ err st',
            read_step stream (sess n) st = Some (End err st') →
            err ≠ 0 → err ≠ AVERROR_EOF →
            extract_video_image fuel env img sess stream
            = Done (err, img, None)).
  { intros err st' Hstep Hne Heof.
    assert (Hrun : read_frames fuel stream sess 0 init_sampling
                   = Done (err, st')).
    { replace fuel with (n + S (fuel - S n))%nat by lia.
      rewrite (read_frames_from _ _ _ _ _ Hat). simpl. rewrite Hstep. done. }
    rewrite (extract_video_image_done _ _ _ _ _ _ _ Hrun). unfold finish.
    destruct (Z.eqb_spec err AVERROR_EOF); [done|].
    destruct (Z.eqb_spec err 0); done. }
  unfold read_step in Hfrom. rewrite Hread, Hstream, !Z.eqb_refl in Hfrom.
  simpl in Hfrom. split; [|split].
  - intros Hsend Heof.
    destruct (Z.ltb_spec (send_err (sess n)) 0); [|lia].
    eapply Hfrom; [done | lia | done].
  - intros Hsend Hslot Halloc.
    destruct (Z.ltb_spec (send_err (sess n)) 0); [lia|].
    rewrite Hslot, Halloc in Hfrom. simpl in Hfrom.
    eapply Hfrom; done.
  - intros Hsend Halloc Hr0 Hagain Heof.
    destruct (Z.ltb_spec (send_err (sess n)) 0); [lia|].
    destruct (load_in_range (frames st) (frame_i st)) as [slot Hslot]; [lia|].
    rewrite Hslot, Halloc in Hfrom. simpl in Hfrom.
    rewrite andb_false_r in Hfrom.
    rewrite store_in_range in Hfrom by lia. simpl in Hfrom.
    destruct (Z.eqb_spec (recv_err (sess n)) 0); [done|].
    destruct (Z.eqb_spec (recv_err (sess n)) (AVERROR EAGAIN)); [done|].
    eapply Hfrom; done.
Qed.

Lemma decoder_error_returned_witness :
  (send_err (script [packet (-5) black] 0) < 0 →
   send_err (script [packet (-5) black] 0) ≠ AVERROR_EOF →
   extract_video_image 1 env_ok no_image (script [packet (-5) black]) 0
   = Done (send_err (script [packet (-5) black] 0), no_image, None)) ∧
  (0 ≤ send_err (script [packet (-5) black] 0) →
   load (frames init_sampling) (frame_i init_sampling) = Some None →
   alloc_ok (script [packet (-5) black] 0) = false →
   extract_video_image 1 env_ok no_image (script [packet (-5) black]) 0
   = Done (AVERROR ENOMEM, no_image, None)) ∧
  (0 ≤ send_err (script [packet (-5) black] 0) →
   alloc_ok (script [packet (-5) black] 0) = true →
   recv_err (script [packet (-5) black] 0) ≠ 0 →
   recv_err (script [packet (-5) black] 0) ≠ AVERROR EAGAIN →
   recv_err (script [packet (-5) black] 0) ≠ AVERROR_EOF →
   extract_video_image 1 env_ok no_image (script [packet (-5) black]) 0
   = Done (recv_err (script [packet (-5) black] 0), no_image, None)).
Proof.
  apply (decoder_error_returned 1 0 env_ok no_image
           (script [packet (-5) black]) 0 init_sampling).
  - reflexivity.
  - lia.
  - reflexivity.
  - reflexivity.
Defined.

(** X11: [extract_video_image] never hands back a partly written image:
    whenever it returns a code other than 0 the caller's image is
    untouched and [sws_scale] was not called, and whenever it returns 0
    the image was filled by [encode_frame] and [sws_scale] was given its
    buffer. *)
Theorem failure_leaves_image_untouched (fuel : nat) (env : libenv)
  (img img' : Buffer) (sess : nat → packet_io) (stream err : Z)
  (call : option scale_call) :
  extract_video_image fuel env img sess stream = Done (err, img', call) →
  (err ≠ 0 → img' = img ∧ call = None) ∧
  (err = 0 → ∃ c, call = Some c ∧ dst_data c = buf_data img').
Proof.
  unfold extract_video_image.
  destruct (read_frames fuel stream sess 0 init_sampling)
    as [[err0 st]| |]; [|discriminate..].
  unfold finish.
  destruct (Z.eqb_spec (if err0 =? AVERROR_EOF then 0 else err0) 0) as [E|E].
  - destruct (frame_i st <? 1).
    + intros H. inversion H. split; [done | lia].
    + destruct (select_best_frame (frames st)) as [best|]; [|discriminate].
      simpl. destruct (best =? -1).
      * intros H. inversion H. split; [done | lia].
      * destruct (load (frames st) best) as [[f|]|]; simpl; try discriminate.
        unfold encode_frame.
        destruct (sws_getContext env (width f) (height f)); simpl;
          intros H; inversion H; subst.
        -- split; [done|]. intros _. eexists. split; done.
        -- split; [done|]. unfold AVERROR, ENOMEM. lia.
  - simpl. intros H. inversion H. subst. split; [done | lia].
Qed.

Lemma failure_leaves_image_untouched_witness :
  (AVERROR ENOMEM ≠ 0 → no_image = no_image ∧ @None scale_call = None) ∧
  (AVERROR ENOMEM = 0 →
   ∃ c, @None scale_call = Some c ∧ dst_data c = buf_data no_image).
Proof.
  apply (failure_leaves_image_untouched 2 env_no_context no_image no_image
           (script [packet 0 black]) 0 (AVERROR ENOMEM) None).
  vm_compute; reflexivity.
Defined.

Lemma encode_frame_accepted (env : libenv) (img : Buffer) (frame : AVFrame) :
  sws_getContext env (width frame) (height frame) = true →
  malloc_ok env = true →
  av_image_check_size (width frame) (height frame) = true →
  encode_frame env img frame
  = (0,
     {| buf_data := Some (width frame * height frame * 4);
        buf_size := width frame * height frame * 4;
        buf_width := width frame;
        buf_height := height frame |},
     Some {| dst_data := Some (width frame * height frame * 4);
             dst_linesize := width frame * 4 |}).
Proof.
  intros Hctx Hmalloc Hsize.
  unfold encode_frame, malloc, av_image_get_buffer_size.
  rewrite Hctx, Hmalloc, Hsize. simpl negb. cbv iota.
  unfold av_image_check_size in Hsize.
  apply andb_true_iff in Hsize as [Hsize Hfit].
  apply andb_true_iff in Hsize as [Hw Hh].
  apply Z.ltb_lt in Hw, Hh, Hfit. unfold INT_MAX in Hfit.
  assert (Hsb : 0 < width frame * height frame * 4 < 2 ^ 31) by nia.
  assert (Hwb : width frame * 4 < 2 ^ 31) by nia.
  assert (Hhb : height frame < 2 ^ 31) by nia.
  unfold to_ulong, to_int.
  rewrite (Z.mod_small (width frame)) by lia.
  rewrite (Z.mod_small (height frame)) by lia.
  rewrite (Z.mod_small (4 * width frame * height frame)) by lia.
  rewrite (Z.mod_small (4 * width frame)) by lia.
  rewrite (Z.mod_small (4 * width frame + 2 ^ 31)) by lia.
  replace (4 * width frame * height frame)
    with (width frame * height frame * 4) by lia.
  replace (4 * width frame + 2 ^ 31 - 2 ^ 31) with (width frame * 4) by lia.
  reflexivity.
Qed.

(** X12: when sampling ends well (code 0 or end of stream) with between 1
    and 99 frames collected, all usable and of a size the converter
    accepts, and [frames] holds those frames only, the call returns 0 and
    the RGBA image of one of the collected frames, the one
    [select_best_frame] picks, with that frame's width and height and
    4 bytes per pixel. *)
Theorem extract_video_image_success (fuel : nat) (env : libenv) (img : Buffer)
  (sess : nat → packet_io) (stream err : Z) (st : sampling)
  (l : list AVFrame) :
  read_frames fuel stream sess 0 init_sampling = Done (err, st) →
  err = 0 ∨ err = AVERROR_EOF →
  frames st = frames_of l → frame_i st = Z.of_nat (length l) →
  l ≠ [] → (length l < 100)%nat → Forall usable l →
  Forall (λ f, sws_getContext env (width f) (height f) = true ∧
               av_image_check_size (width f) (height f) = true) l →
  malloc_ok env = true →
  ∃ best f,
    select_best_frame (frames st) = Some best ∧
    l !! Z.to_nat best = Some f ∧ 0 ≤ best < frame_i st ∧
    extract_video_image fuel env img sess stream
    = Done (0,
            {| buf_data := Some (width f * height f * 4);
               buf_size := width f * height f * 4;
               buf_width := width f;
               buf_height := height f |},
            Some {| dst_data := Some (width f * height f * 4);
                    dst_linesize := width f * 4 |}).
Proof.
  intros Hrun Herr Hfr Hfi Hne Hlen Huse Hconv Hmalloc.
  destruct (select_best_frame_first_minimum l Hne Hlen Huse)
    as (hists & average & best & _ & _ & Hsel & Hrange & _).
  destruct (lookup_lt_is_Some_2 l (Z.to_nat best)) as [f Hf]; [lia|].
  exists best, f. rewrite Hfr. split; [done|]. split; [done|].
  split; [lia|].
  rewrite Forall_lookup in Hconv. destruct (Hconv _ _ Hf) as [Hctx Hsize].
  rewrite <- (encode_frame_accepted env img f Hctx Hmalloc Hsize).
  apply (extract_video_image_encodes fuel env img sess stream err best st f);
    [done | done | | by rewrite Hfr | lia |].
  - destruct l; [done | simpl in Hfi; lia].
  - rewrite Hfr, frames_of_load by (unfold MAX_FRAMES; lia).
    rewrite Hf. done.
Qed.

Lemma extract_video_image_success_witness :
  ∃ best f,
    select_best_frame
      (frames {| frame_i := 2; frames := frames_of [black; black] |})
      = Some best ∧
    [black; black] !! Z.to_nat best = Some f ∧
    0 ≤ best < frame_i {| frame_i := 2; frames := frames_of [black; black] |} ∧
    extract_video_image 3 env_ok no_image
      (script [packet 0 black; packet 0 black]) 0
    = Done (0,
            {| buf_data := Some (width f * height f * 4);
               buf_size := width f * height f * 4;
               buf_width := width f;
               buf_height := height f |},
            Some {| dst_data := Some (width f * height f * 4);
                    dst_linesize := width f * 4 |}).
Proof.
  apply (extract_video_image_success 3 env_ok no_image
           (script [packet 0 black; packet 0 black]) 0 AVERROR_EOF
           {| frame_i := 2; frames := frames_of [black; black] |}
           [black; black]).
  - reflexivity.
  - right; reflexivity.
  - reflexivity.
  - reflexivity.
  - discriminate.
  - simpl; lia.
  - constructor; [exact usable_black|].
    constructor; [exact usable_black | constructor].
  - constructor; [split; reflexivity|].
    constructor; [split; reflexivity | constructor].
  - reflexivity.
Defined.

(** ** The histogram, bin by bin *)

Lemma for_loop_post {St} (P : Z → St → Prop) (body : Z → St → option St)
  (n : nat) (lo : Z) (s s' : St) :
  P lo s →
  (∀ i t t', lo ≤ i < lo + Z.of_nat n → P i t → body i t = Some t' →
     P (i + 1) t') →
  for_loop n lo body s = Some s' → P (lo + Z.of_nat n) s'.
Proof.
  revert lo s. induction n as [|n IH]; intros lo s H0 Hstep Hrun;
    simpl in Hrun.
  - inversion Hrun. subst. rewrite Z.add_0_r. done.
  - destruct (body lo s) as [t|] eqn:Ht; [|discriminate]. simpl in Hrun.
    replace (lo + Z.of_nat (S n)) with (lo + 1 + Z.of_nat n) by lia.
    apply (IH (lo + 1) t); [| |done].
    + apply (Hstep lo s t); [lia | done | done].
    + intros i u u' Hi. apply Hstep. lia.
Qed.

Lemma for_range_post {St} (P : Z → St → Prop) (body : Z → St → option St)
  (hi : Z) (s s' : St) :
  0 ≤ hi → P 0 s →
  (∀ i t t', 0 ≤ i < hi → P i t → body i t = Some t' → P (i + 1) t') →
  for_range 0 hi body s = Some s' → P hi s'.
Proof.
  intros Hhi H0 Hstep Hrun. unfold for_range in Hrun.
  replace hi with (0 + Z.of_nat (Z.to_nat (hi - 0))) by lia.
  apply (for_loop_post P body _ 0 s s'); [done | | done].
  intros i t t' Hi. apply Hstep. lia.
Qed.

Lemma sum_below_next (i : Z) (g : Z → Z) :
  0 ≤ i → sum_below (Z.to_nat (i + 1)) g = sum_below (Z.to_nat i) g + g i.
Proof.
  intros Hi. replace (Z.to_nat (i + 1)) with (S (Z.to_nat i)) by lia.
  simpl. rewrite Z2Nat.id by done. done.
Qed.

Lemma sum_below_ext (n : nat) (g g' : Z → Z) :
  (∀ i, 0 ≤ i < Z.of_nat n → g i = g' i) → sum_below n g = sum_below n g'.
Proof.
  induction n as [|n IH]; intros Hext; simpl; [done|].
  rewrite IH by (intros i Hi; apply Hext; lia).
  rewrite (Hext (Z.of_nat n)) by lia. done.
Qed.

Lemma incr_load (h h' : list Z) (b b' x : Z) :
  incr h b = Some h' → load h b' = Some x →
  load h' b' = Some (if b' =? b then x + 1 else x).
Proof.
  unfold incr. intros Hincr Hb'.
  destruct (load h b) as [c|] eqn:Hc; [|discriminate]. simpl in Hincr.
  destruct (c <? INT_MAX); [|discriminate].
  apply store_Some in Hincr as [Hb ->].
  pose proof Hb' as Hb''. apply load_Some in Hb'' as [Hpos Hl].
  apply load_Some. split; [done|].
  destruct (Z.eqb_spec b' b) as [->|Hne].
  - rewrite Hc in Hb'. inversion Hb'. subst.
    apply list_lookup_insert_eq. lia.
  - rewrite list_lookup_insert_ne by lia. done.
Qed.

Lemma count_pixel_bins (plane : list Byte.byte) (p i : Z) (h h' : list Z) :
  count_pixel plane p i h = Some h' →
  ∀ k v x, 0 ≤ k < 3 → 0 ≤ v < 256 → load h (k * 256 + v) = Some x →
    load h' (k * 256 + v) = Some (x + pixel_hit plane p i k v).
Proof.
  intros Hrun k v x Hk Hv Hx. unfold count_pixel in Hrun.
  assert (Hpost : load h' (k * 256 + v)
            = Some (x + (if k <? 3 then pixel_hit plane p i k v else 0)));
    [|destruct (Z.ltb_spec k 3); [done | lia]].
  eapply (for_range_post
    (λ k' (t : list Z),
       load t (k * 256 + v)
       = Some (x + (if k <? k' then pixel_hit plane p i k v else 0)))
    _ 3 h h'); [lia | | | exact Hrun].
  - destruct (Z.ltb_spec k 0); [lia|]. rewrite Z.add_0_r. done.
  - intros k' t t' Hk' Ht Hbody. cbv beta in Hbody.
    destruct (int_val (i * 3 + k')) as [o|] eqn:Ho; [|discriminate].
    assert (o = i * 3 + k') as ->.
    { unfold int_val in Ho.
      destruct ((INT_MIN <=? i * 3 + k') && (i * 3 + k' <=? INT_MAX));
        [by inversion Ho | discriminate]. }
    simpl in Hbody.
    destruct (load plane (p + (i * 3 + k'))) as [b|] eqn:Hb; [|discriminate].
    simpl in Hbody. rewrite (incr_load _ _ _ _ _ Hbody Ht).
    pose proof (byte_val_range b) as Hbr. f_equal.
    destruct (Z.eqb_spec (k * 256 + v) (k' * 256 + byte_val b)) as [E|E].
    + assert (k = k') by lia. subst k'. assert (byte_val b = v) by lia.
      destruct (Z.ltb_spec k k), (Z.ltb_spec k (k + 1)); try lia.
      unfold pixel_hit. rewrite Hb.
      destruct (Z.eqb_spec (byte_val b) v); lia.
    + destruct (Z.ltb_spec k k'), (Z.ltb_spec k (k' + 1)); try lia.
      assert (k = k') by lia. subst k'.
      unfold pixel_hit. rewrite Hb.
      destruct (Z.eqb_spec (byte_val b) v); lia.
Qed.

Lemma count_row_bins (plane : list Byte.byte) (p w : Z) (h h' : list Z) :
  count_row plane p w h = Some h' → 0 ≤ w →
  ∀ k v x, 0 ≤ k < 3 → 0 ≤ v < 256 → load h (k * 256 + v) = Some x →
    load h' (k * 256 + v)
    = Some (x + sum_below (Z.to_nat w) (λ i, pixel_hit plane p i k v)).
Proof.
  intros Hrun Hw k v x Hk Hv Hx. unfold count_row in Hrun.
  eapply (for_range_post
    (λ i (t : list Z),
       load t (k * 256 + v)
       = Some (x + sum_below (Z.to_nat i) (λ i, pixel_hit plane p i k v)))
    _ w h h' Hw); [| |exact Hrun].
  - simpl. rewrite Z.add_0_r. done.
  - intros i t t' Hi Ht Hbody. cbv beta in Hbody.
    rewrite (count_pixel_bins plane p i t t' Hbody k v _ Hk Hv Ht).
    rewrite sum_below_next by lia. f_equal. lia.
Qed.

Lemma count_frame_bins (f : AVFrame) (plane : list Byte.byte)
  (h h' : list Z) :
  count_frame f plane h = Some h' → 0 ≤ width f → 0 ≤ height f →
  ∀ k v x, 0 ≤ k < 3 → 0 ≤ v < 256 → load h (k * 256 + v) = Some x →
    load h' (k * 256 + v) = Some (x + bin_count f plane k v).
Proof.
  intros Hrun Hw Hh k v x Hk Hv Hx. unfold count_frame in Hrun.
  destruct (for_range 0 (height f) _ (0, h)) as [[p t]|] eqn:Hloop;
    [|discriminate].
  simpl in Hrun. inversion Hrun. subst t. clear Hrun.
  eapply (for_range_post
    (λ j (s : Z * list Z),
       s.1 = j * linesize f ∧
       load s.2 (k * 256 + v)
       = Some (x + sum_below (Z.to_nat j) (λ j,
                     sum_below (Z.to_nat (width f)) (λ i,
                       pixel_hit plane (j * linesize f) i k v))))
    _ (height f) (0, h) (p, h') Hh); [| |exact Hloop].
  - simpl. split; [lia|]. rewrite Z.add_0_r. done.
  - intros j [q t] [q' t'] Hj [Hq Ht] Hbody. simpl in *. subst q.
    destruct (count_row plane (j * linesize f) (width f) t) as [u|] eqn:Hrow;
      [|discriminate].
    simpl in Hbody. inversion Hbody. subst q' t'. split; [lia|].
    rewrite (count_row_bins _ _ _ _ _ Hrow Hw k v _ Hk Hv Ht).
    rewrite sum_below_next by lia. f_equal. lia.
Qed.

(** X13: the histogram built for a usable frame holds, in bin
    [k * 256 + v], the number of pixels of the frame whose channel [k] has
    value [v], the rows being read [linesize] bytes apart. *)
Theorem histogram_counts_pixels (f : AVFrame) (plane : list Byte.byte) :
  data f = Some plane →
  0 ≤ width f → 0 ≤ height f →
  width f * height f ≤ INT_MAX → 3 * width f ≤ INT_MAX →
  plane_covers f plane →
  ∃ h, count_frame f plane (replicate (Z.to_nat HIST_SIZE) 0) = Some h ∧
       length h = Z.to_nat HIST_SIZE ∧
       ∀ k v, 0 ≤ k < 3 → 0 ≤ v < 256 →
         load h (k * 256 + v) = Some (bin_count f plane k v).
Proof.
  intros _ Hw Hh Hsz Hfit Hcov.
  destruct (count_frame_inv f plane Hw Hh Hsz Hfit Hcov)
    as (h & Hrun & Hlen & _).
  exists h. split; [done|]. split; [done|]. intros k v Hk Hv.
  rewrite (count_frame_bins f plane _ h Hrun Hw Hh k v 0 Hk Hv); [done|].
  apply load_Some. split; [lia|]. apply lookup_replicate_2.
  unfold HIST_SIZE. lia.
Qed.

Lemma histogram_counts_pixels_witness :
  ∃ h, count_frame black [Byte.x00; Byte.x00; Byte.x00]
         (replicate (Z.to_nat HIST_SIZE) 0) = Some h ∧
       length h = Z.to_nat HIST_SIZE ∧
       ∀ k v, 0 ≤ k < 3 → 0 ≤ v < 256 →
         load h (k * 256 + v)
         = Some (bin_count black [Byte.x00; Byte.x00; Byte.x00] k v).
Proof.
  apply (histogram_counts_pixels black [Byte.x00; Byte.x00; Byte.x00]).
  - reflexivity.
  - simpl; lia.
  - simpl; lia.
  - vm_compute; discriminate.
  - vm_compute; discriminate.
  - intros j i k; simpl; lia.
Defined.

(** X14: the histogram depends on the pixels only, not on the padding of
    the rows: two usable frames of the same width and height whose planes
    hold the same bytes at every pixel, whatever their line sizes and the
    bytes between rows, get the same histogram. *)
Theorem histogram_ignores_padding (f f' : AVFrame)
  (plane plane' : list Byte.byte) :
  width f' = width f → height f' = height f →
  0 ≤ width f → 0 ≤ height f →
  width f * height f ≤ INT_MAX → 3 * width f ≤ INT_MAX →
  plane_covers f plane → plane_covers f' plane' →
  (∀ j i k, 0 ≤ j < height f → 0 ≤ i < width f → 0 ≤ k < 3 →
     load plane (j * linesize f + (i * 3 + k))
     = load plane' (j * linesize f' + (i * 3 + k))) →
  count_frame f plane (replicate (Z.to_nat HIST_SIZE) 0)
  = count_frame f' plane' (replicate (Z.to_nat HIST_SIZE) 0).
Proof.
  intros Ew Eh Hw Hh Hsz Hfit Hcov Hcov' Hsame.
  destruct (count_frame_inv f plane Hw Hh Hsz Hfit Hcov)
    as (h & Hrun & Hlen & _).
  destruct (count_frame_inv f' plane') as (h' & Hrun' & Hlen' & _);
    [lia | lia | rewrite Ew, Eh; done | lia | done |].
  rewrite Hrun, Hrun'. f_equal. apply list_eq. intros n.
  destruct (decide (n < 768)%nat) as [Hn|Hn];
    [|rewrite !lookup_ge_None_2 by lia; done].
  assert (Hzero : ∀ b, 0 ≤ b < 768 →
            load (replicate (Z.to_nat HIST_SIZE) 0) b = Some 0).
  { intros b Hb. apply load_Some. split; [lia|].
    apply lookup_replicate_2. unfold HIST_SIZE. lia. }
  set (k := Z.of_nat n / 256). set (v := Z.of_nat n mod 256).
  assert (Hk : 0 ≤ k < 3).
  { unfold k. split; [apply Z.div_pos; lia|].
    apply Z.div_lt_upper_bound; lia. }
  assert (Hv : 0 ≤ v < 256) by (unfold v; apply Z.mod_pos_bound; lia).
  assert (Hn' : Z.of_nat n = k * 256 + v).
  { unfold k, v. rewrite Z.mul_comm. apply Z.div_mod. lia. }
  assert (Hz : load (replicate (Z.to_nat HIST_SIZE) 0) (k * 256 + v) = Some 0)
    by (apply Hzero; lia).
  pose proof (count_frame_bins f plane _ h Hrun Hw Hh k v 0 Hk Hv Hz) as Hb.
  pose proof (count_frame_bins f' plane' _ h' Hrun' ltac:(lia) ltac:(lia)
                k v 0 Hk Hv Hz) as Hb'.
  rewrite <- Hn' in Hb, Hb'.
  apply load_Some in Hb as [_ Hb]. apply load_Some in Hb' as [_ Hb'].
  rewrite Nat2Z.id in Hb, Hb'. rewrite Hb, Hb'. do 2 f_equal.
  unfold bin_count. rewrite Ew, Eh.
  apply sum_below_ext. intros j Hj. apply sum_below_ext. intros i Hi.
  unfold pixel_hit. rewrite Hsame by lia. done.
Qed.

Lemma histogram_ignores_padding_witness :
  count_frame black [Byte.x00; Byte.x00; Byte.x00]
    (replicate (Z.to_nat HIST_SIZE) 0)
  = count_frame
      {| width := 1; height := 1;
         data := Some [Byte.x00; Byte.x00; Byte.x00; Byte.xff];
         linesize := 4 |}
      [Byte.x00; Byte.x00; Byte.x00; Byte.xff]
      (replicate (Z.to_nat HIST_SIZE) 0).
Proof.
  apply (histogram_ignores_padding black
           {| width := 1; height := 1;
              data := Some [Byte.x00; Byte.x00; Byte.x00; Byte.xff];
              linesize := 4 |}).
  - reflexivity.
  - reflexivity.
  - simpl; lia.
  - simpl; lia.
  - vm_compute; discriminate.
  - vm_compute; discriminate.
  - intros j i k; simpl; lia.
  - intros j i k; simpl; lia.
  - intros j i k Hj Hi Hk; simpl in *.
    assert (j = 0) by lia. assert (i = 0) by lia. subst.
    assert (k = 0 ∨ k = 1 ∨ k = 2) as [-> | [-> | ->]] by lia; reflexivity.
Defined.

(** ** Packets of other streams *)

Lemma read_frames_S (fuel : nat) (stream : Z) (sess : nat → packet_io)
  (n : nat) (st : sampling) :
  read_frames (S fuel) stream sess n st
  = match read_step stream (sess n) st with
    | None => Undefined
    | Some (Continue st') => read_frames fuel stream sess (S n) st'
    | Some (End err st') => Done (err, st')
    end.
Proof. reflexivity. Qed.

Lemma read_frames_shift (stream : Z) (sess sess' : nat → packet_io)
  (fuel n : nat) (st : sampling) :
  (∀ m, (n ≤ m)%nat → sess' m = sess (S m)) →
  read_frames fuel stream sess (S n) st = read_frames fuel stream sess' n st.
Proof.
  revert n st. induction fuel as [|fuel IH]; intros n st Hshift; [done|].
  simpl. rewrite (Hshift n) by lia.
  destruct (read_step stream (sess (S n)) st) as [[st1|]|]; try done.
  apply IH. intros m Hm. apply Hshift. lia.
Qed.

(** X15: a packet of another stream changes nothing: the call on a
    session has the outcome of the call on the same session without one
    of its turns, when that turn reads a packet of another stream. *)
Theorem foreign_packet_ignored (fuel k : nat) (env : libenv) (img : Buffer)
  (sess : nat → packet_io) (stream : Z) :
  read_err (sess k) = 0 → stream_index (sess k) ≠ stream →
  (k < fuel)%nat →
  extract_video_image (S fuel) env img sess stream
  = extract_video_image fuel env img (drop_turn k sess) stream.
Proof.
  intros Hread Hother Hfuel.
  assert (Hrun : ∀ fuel n st, (n ≤ k)%nat → (k - n < fuel)%nat →
            read_frames (S fuel) stream sess n st
            = read_frames fuel stream (drop_turn k sess) n st).
  { clear fuel Hfuel. induction fuel as [|fuel IH]; intros n st Hn Hk; [lia|].
    rewrite (read_frames_S (S fuel) stream sess n st).
    destruct (decide (n = k)) as [->|Hne].
    - assert (Hstep : read_step stream (sess k) st = Some (Continue st)).
      { unfold read_step. rewrite Hread. simpl.
        destruct (Z.eqb_spec (stream_index (sess k)) stream); done. }
      rewrite Hstep. apply read_frames_shift. intros m Hm. unfold drop_turn.
      destruct (Nat.ltb_spec m k); [lia | done].
    - rewrite (read_frames_S fuel stream (drop_turn k sess) n st).
      unfold drop_turn at 1.
      destruct (Nat.ltb_spec n k); [|lia].
      destruct (read_step stream (sess n) st) as [[st1|]|]; try done.
      apply IH; lia. }
  unfold extract_video_image. rewrite Hrun by lia. done.
Qed.

Lemma foreign_packet_ignored_witness :
  extract_video_image 3 env_ok no_image
    (script [foreign_packet; packet 0 black]) 0
  = extract_video_image 2 env_ok no_image
      (drop_turn 0 (script [foreign_packet; packet 0 black])) 0.
Proof.
  apply (foreign_packet_ignored 2 0 env_ok no_image
           (script [foreign_packet; packet 0 black]) 0).
  - reflexivity.
  - discriminate.
  - lia.
Defined.

(** X16: a failure of [malloc] is never reported: whenever a call returns
    0, the same call with an allocator that fails returns 0 as well, with
    the same size, width and height in the image, a null data pointer, and
    a null destination handed to [sws_scale]. *)
Theorem allocation_failure_not_reported (fuel : nat) (env : libenv)
  (img img' : Buffer) (sess : nat → packet_io) (stream : Z)
  (c : scale_call) :
  extract_video_image fuel env img sess stream = Done (0, img', Some c) →
  extract_video_image fuel (with_malloc false env) img sess stream
  = Done (0,
          {| buf_data := None; buf_size := buf_size img';
             buf_width := buf_width img'; buf_height := buf_height img' |},
          Some {| dst_data := None; dst_linesize := dst_linesize c |}).
Proof.
  unfold extract_video_image.
  destruct (read_frames fuel stream sess 0 init_sampling)
    as [[err0 st]| |]; [|discriminate..].
  unfold finish.
  destruct ((if err0 =? AVERROR_EOF then 0 else err0) =? 0);
    [|simpl; discriminate].
  destruct (frame_i st <? 1); [simpl; discriminate|].
  destruct (select_best_frame (frames st)) as [best|]; [|discriminate].
  simpl. destruct (best =? -1); [simpl; discriminate|].
  destruct (load (frames st) best) as [[f|]|]; simpl; try discriminate.
  unfold encode_frame. simpl sws_getContext.
  destruct (sws_getContext env (width f) (height f)); simpl;
    [|discriminate].
  intros H. inversion H. reflexivity.
Qed.

Lemma allocation_failure_not_reported_witness :
  extract_video_image 2 (with_malloc false env_ok) no_image
    (script [packet 0 black]) 0
  = Done (0,
          {| buf_data := None; buf_size := 4; buf_width := 1;
             buf_height := 1 |},
          Some {| dst_data := None; dst_linesize := 4 |}).
Proof.
  apply (allocation_failure_not_reported 2 env_ok no_image
           {| buf_data := Some 4; buf_size := 4; buf_width := 1;
              buf_height := 1 |}
           (script [packet 0 black]) 0
           {| dst_data := Some 4; dst_linesize := 4 |}).
  vm_compute; reflexivity.
Defined.
